(** * Acey Ducey (C++ port): the game engine of [01_Acey_Ducey/cpp]

    A shallow embedding of [AceyDucey.hpp] / [AceyDucey.cpp]: the rank
    table, the rank comparison, the line reader, the bet parser, one
    round of play and the loop of [run], followed by the properties the
    specification states about them. *)

From Stdlib Require Import ZArith List String Ascii Bool Lia DecimalString.
Import ListNotations.

Open Scope string_scope.
Open Scope Z_scope.

(** ** The rank table *)

(** [static constexpr std::array<std::string_view, 13> CARDS] *)
Definition CARDS : list string :=
  ["2"; "3"; "4"; "5"; "6"; "7"; "8"; "9"; "10"; "J"; "Q"; "K"; "A"].

(** [std::distance(r.begin(), std::ranges::find(r, value))]: the position
    of the first element equal to [value], the size of the range when
    there is none. *)
Fixpoint find_distance (r : list string) (value : string) : nat :=
  match r with
  | [] => O
  | x :: r' => if String.eqb x value then O else S (find_distance r' value)
  end.

(** The lambda [index_of] of [is_between]: no test against [end()], so a
    label that is not in the table gets 13. *)
Definition index_of (value : string) : Z :=
  Z.of_nat (find_distance CARDS value).

(** [AceyDucey::is_between] *)
Definition is_between (a b test : string) : bool :=
  let idx_a := index_of a in
  let idx_b := index_of b in
  let idx_test := index_of test in
  let '(idx_a, idx_b) :=
    if idx_a >? idx_b then (idx_b, idx_a) else (idx_a, idx_b) in
  (idx_test >? idx_a) && (idx_test <? idx_b).

(** ** [int], characters and strings *)

Definition INT_MIN : Z := -2147483648.
Definition INT_MAX : Z := 2147483647.

(** The value an [int] holds after an arithmetic result [z]: [z] itself
    when it fits, its two's complement wrap-around otherwise (the standard
    leaves signed overflow undefined; this is what the compiled program
    does). *)
Definition wrap_int (z : Z) : Z :=
  (z - INT_MIN) mod 2 ^ 32 + INT_MIN.

(** [<cctype>] in the "C" locale, on [unsigned char]. *)
Definition isspace (c : ascii) : bool :=
  let n := nat_of_ascii c in
  (n =? 32)%nat || ((9 <=? n)%nat && (n <=? 13)%nat).

Definition isdigit (c : ascii) : bool :=
  let n := nat_of_ascii c in
  (48 <=? n)%nat && (n <=? 57)%nat.

Definition toupper (c : ascii) : ascii :=
  let n := nat_of_ascii c in
  if (97 <=? n)%nat && (n <=? 122)%nat then ascii_of_nat (n - 32) else c.

Definition empty (s : string) : bool :=
  match s with EmptyString => true | String _ _ => false end.

(** [std::ranges::all_of(s, p)] *)
Fixpoint all_of (p : ascii -> bool) (s : string) : bool :=
  match s with
  | EmptyString => true
  | String c s' => p c && all_of p s'
  end.

(** [s.erase(s.begin(), std::find_if(s.begin(), s.end(), not p))] *)
Fixpoint erase_leading (p : ascii -> bool) (s : string) : string :=
  match s with
  | EmptyString => EmptyString
  | String c s' => if p c then erase_leading p s' else s
  end.

(** [s.erase(std::find_if(s.rbegin(), s.rend(), not p).base(), s.end())]:
    what is left ends with the last character that is not a [p]. *)
Fixpoint erase_trailing (p : ascii -> bool) (s : string) : string :=
  match s with
  | EmptyString => EmptyString
  | String c s' =>
      let t := erase_trailing p s' in
      if empty t && p c then EmptyString else String c t
  end.

(** [std::transform(s.begin(), s.end(), s.begin(), f)] *)
Fixpoint transform (f : ascii -> ascii) (s : string) : string :=
  match s with
  | EmptyString => EmptyString
  | String c s' => String (f c) (transform f s')
  end.

(** The longest prefix of [p] characters. *)
Fixpoint take_while (p : ascii -> bool) (s : string) : string :=
  match s with
  | EmptyString => EmptyString
  | String c s' => if p c then String c (take_while p s') else EmptyString
  end.

(** The number a run of decimal digits writes, most significant first. *)
Fixpoint digits_value (acc : Z) (s : string) : Z :=
  match s with
  | EmptyString => acc
  | String c s' =>
      digits_value (10 * acc + (Z.of_nat (nat_of_ascii c) - 48)) s'
  end.

(** [std::format("{}", n)] for an [int]. *)
Definition format_int (n : Z) : string :=
  NilZero.string_of_int (Z.to_int n).

Fixpoint spaces (n : nat) : string :=
  match n with
  | O => EmptyString
  | S n' => String " " (spaces n')
  end.

(** [std::format("{:^w}", s)]: of the padding, the half rounded down goes
    in front. *)
Definition format_center (w : nat) (s : string) : string :=
  let pad := (w - String.length s)%nat in
  let front := (pad / 2)%nat in
  spaces front ++ s ++ spaces (pad - front).

Definition endl : string := String (ascii_of_nat 10) EmptyString.

(** A line of output: the text and the line feed after it. *)
Definition line (s : string) : string := s ++ endl.

(** ** Exceptions *)

Inductive exception : Type :=
| invalid_argument
| out_of_range.

(** What a call that touches no member leaves: a value or an exception. *)
Inductive result (A : Type) : Type :=
| Value (a : A)
| Raised (e : exception).

Arguments Value {A} a.
Arguments Raised {A} e.

(** [std::stoi(s)] (base 10): leading white space, an optional sign, then
    the longest run of digits; [invalid_argument] when there is no digit,
    [out_of_range] when the number is not an [int]. *)
Definition stoi (s : string) : result Z :=
  let s := erase_leading isspace s in
  let '(negative, s) :=
    match s with
    | String "-" s' => (true, s')
    | String "+" s' => (false, s')
    | _ => (false, s)
    end in
  let ds := take_while isdigit s in
  if empty ds then Raised invalid_argument
  else
    let v := if negative then - digits_value 0 ds else digits_value 0 ds in
    if (INT_MIN <=? v) && (v <=? INT_MAX) then Value v
    else Raised out_of_range.

(** [AceyDucey::get_positive_integer] *)
Definition get_positive_integer (s : string) : result Z :=
  if negb (empty s) && all_of isdigit s then stoi s else Value (-1).

(** ** The game object *)

(** [enum class State] *)
Inductive State : Type :=
| Initialising
| Playing
| BetNothing
| GameOver.

Definition State_eqb (s t : State) : bool :=
  match s, t with
  | Initialising, Initialising
  | Playing, Playing
  | BetNothing, BetNothing
  | GameOver, GameOver => true
  | _, _ => false
  end.

(** The random engine, as the sequence of numbers it is going to hand to
    the distributions and how many of them have been used. *)
Record Rng : Type := mkRng {
  samples : nat -> nat;
  cursor : nat
}.

(** The members of [class AceyDucey], with the three standard streams the
    member functions use: the lines still to be read from [std::cin], and
    what has been written to [std::cout] and [std::cerr], oldest first. *)
Record AceyDucey : Type := mkAceyDucey {
  balance : Z;
  state : State;
  deck : list string;
  rng : Rng;
  cin : list string;
  cout : list string;
  cerr : list string
}.

Definition with_balance (b : Z) (g : AceyDucey) : AceyDucey :=
  mkAceyDucey b (state g) (deck g) (rng g) (cin g) (cout g) (cerr g).

Definition with_state (s : State) (g : AceyDucey) : AceyDucey :=
  mkAceyDucey (balance g) s (deck g) (rng g) (cin g) (cout g) (cerr g).

Definition with_rng (r : Rng) (g : AceyDucey) : AceyDucey :=
  mkAceyDucey (balance g) (state g) (deck g) r (cin g) (cout g) (cerr g).

Definition with_cin (i : list string) (g : AceyDucey) : AceyDucey :=
  mkAceyDucey (balance g) (state g) (deck g) (rng g) i (cout g) (cerr g).

Definition with_cout (o : list string) (g : AceyDucey) : AceyDucey :=
  mkAceyDucey (balance g) (state g) (deck g) (rng g) (cin g) o (cerr g).

Definition with_cerr (o : list string) (g : AceyDucey) : AceyDucey :=
  mkAceyDucey (balance g) (state g) (deck g) (rng g) (cin g) (cout g) o.

(** [AceyDucey::AceyDucey()], given the engine the seed produced and the
    lines waiting on standard input. *)
Definition new_game (r : Rng) (input : list string) : AceyDucey :=
  mkAceyDucey 100 Initialising CARDS r input [] [].

(** ** Member functions: state and exceptions *)

(** How a member function ends: it returns, or an exception leaves it;
    either way the object is in some state. *)
Inductive outcome (A : Type) : Type :=
| Returns (a : A) (g : AceyDucey)
| Throws (e : exception) (g : AceyDucey).

Arguments Returns {A} a g.
Arguments Throws {A} e g.

Definition M (A : Type) : Type := AceyDucey -> outcome A.

Definition ret {A : Type} (a : A) : M A :=
  fun g => Returns a g.

Definition bind {A B : Type} (m : M A) (k : A -> M B) : M B :=
  fun g =>
    match m g with
    | Returns a g' => k a g'
    | Throws e g' => Throws e g'
    end.

Notation "x <- m ;; k" := (bind m (fun x => k))
  (at level 61, m at next level, right associativity).
Notation "m ;; k" := (bind m (fun _ => k))
  (at level 61, right associativity).

Definition gets {A : Type} (f : AceyDucey -> A) : M A :=
  fun g => Returns (f g) g.

Definition modify (f : AceyDucey -> AceyDucey) : M unit :=
  fun g => Returns tt (f g).

(** A call of a function that only computes. *)
Definition call {A : Type} (r : result A) : M A :=
  fun g =>
    match r with
    | Value a => Returns a g
    | Raised e => Throws e g
    end.

(** [std::print(s)] and [std::println(s)] *)
Definition print (s : string) : M unit :=
  modify (fun g => with_cout (cout g ++ [s]) g).

Definition println (s : string) : M unit :=
  print (line s).

(** [std::uniform_int_distribution<size_t> dist(lo, hi); dist(rng)]: the
    next number of the engine, brought into [lo .. hi]. *)
Definition uniform_int_distribution (lo hi : nat) : M nat :=
  r <- gets rng ;;
  modify (with_rng (mkRng (samples r) (S (cursor r)))) ;;
  ret (lo + samples r (cursor r) mod (hi - lo + 1))%nat.

(** [AceyDucey::deal_card] *)
Definition deal_card : M string :=
  d <- gets deck ;;
  i <- uniform_int_distribution 0 (List.length d - 1) ;;
  ret (nth i d EmptyString).

(** [AceyDucey::print_intro] *)
Definition print_intro : M unit :=
  println (format_center 66 "ACEY DUCEY CARD GAME") ;;
  println (format_center 66 "CREATIVE COMPUTING  MORRISTOWN, NEW JERSEY").

(** [AceyDucey::print_instructions] *)
Definition print_instructions : M unit :=
  println "" ;;
  println "ACEY-DUCEY IS PLAYED IN THE FOLLOWING MANNER" ;;
  println "THE DEALER (COMPUTER) DEALS TWO CARDS FACE UP" ;;
  println "YOU HAVE AN OPTION TO BET OR NOT BET DEPENDING" ;;
  println "ON WHETHER OR NOT YOU FEEL THE CARD WILL HAVE" ;;
  println "A VALUE BETWEEN THE FIRST TWO.".

(** The lambda [index_of] of [print_cards]: -1 for a label that is not in
    the table. *)
Definition index_of_or_minus1 (value : string) : Z :=
  let d := find_distance CARDS value in
  if (d =? List.length CARDS)%nat then -1 else Z.of_nat d.

(** [AceyDucey::print_cards] *)
Definition print_cards (a b : string) : M unit :=
  let idx_a := index_of_or_minus1 a in
  let idx_b := index_of_or_minus1 b in
  if (idx_a =? -1) || (idx_b =? -1) then
    modify (fun g =>
      with_cerr (cerr g ++ [line "Error: Invalid card rank(s)."]) g)
  else
    let '(a, b) := if idx_a >? idx_b then (b, a) else (a, b) in
    println (a ++ " " ++ b).

(** [std::getline(std::cin, line)]: the next line; the empty string, and
    nothing consumed, at the end of the input. *)
Definition getline : M string :=
  i <- gets cin ;;
  modify (with_cin (tl i)) ;;
  ret (hd EmptyString i).

(** What [get_input_line] does to the line it read. *)
Definition sanitize (s : string) : string :=
  transform toupper (erase_trailing isspace (erase_leading isspace s)).

(** [AceyDucey::get_input_line] *)
Definition get_input_line : M string :=
  s <- getline ;;
  ret (sanitize s).

(** [AceyDucey::is_game_over] *)
Definition is_game_over : M bool :=
  b <- gets balance ;;
  ret (b <=? 0).

Definition FAREWELL : string := "GAME OVER. Thanks for playing!".

(** [AceyDucey::play_turn], the block under [if (balance <= 0)]: the
    player is broke and is asked whether to start again. *)
Definition broke : M unit :=
  println "SORRY, FRIEND, BUT YOU BLEW YOUR WAD." ;;
  print "TRY AGAIN (YES OR NO)? " ;;
  response <- get_input_line ;;
  if String.eqb response "YES" then
    modify (with_state Playing) ;;
    modify (with_balance 100)
  else
    modify (with_state GameOver).

(** [AceyDucey::play_turn], from [if (bet <= 0)] to the end.  The [return]
    of the first branch is the only way past the assignment that closes
    the function. *)
Definition take_bet (first_pick second_pick : string) (bet : Z) : M unit :=
  b <- gets balance ;;
  if bet <=? 0 then
    println "CHICKEN!!" ;;
    modify (with_state BetNothing)
  else
    (if bet >? b then
       println "SORRY, MY FRIEND, BUT YOU BET TOO MUCH." ;;
       println ("YOU HAVE ONLY " ++ format_int b ++ " DOLLARS TO BET.")
     else
       third_pick <- deal_card ;;
       println third_pick ;;
       if is_between first_pick second_pick third_pick then
         println "YOU WIN!!!" ;;
         modify (fun g => with_balance (wrap_int (balance g + bet)) g)
       else
         println "SORRY, YOU LOSE" ;;
         modify (fun g => with_balance (wrap_int (balance g - bet)) g) ;;
         b' <- gets balance ;;
         if b' <=? 0 then broke else ret tt) ;;
    modify (with_state Playing).

(** [AceyDucey::play_turn] *)
Definition play_turn : M unit :=
  st <- gets state ;;
  (if State_eqb st Playing then
     b <- gets balance ;;
     println ("YOU NOW HAVE $" ++ format_int b ++ " DOLLARS")
   else ret tt) ;;
  println "HERE ARE YOUR NEXT TWO CARDS:" ;;
  first_pick <- deal_card ;;
  second_pick <- deal_card ;;
  print_cards first_pick second_pick ;;
  print "WHAT IS YOUR BET " ;;
  input <- get_input_line ;;
  bet <- call (get_positive_integer input) ;;
  take_bet first_pick second_pick bet.

(** The body of the [while] of [AceyDucey::run]: the [switch]. *)
Definition run_body : M unit :=
  st <- gets state ;;
  match st with
  | Initialising =>
      print_intro ;;
      print_instructions ;;
      modify (with_state Playing)
  | Playing | BetNothing =>
      play_turn ;;
      over <- is_game_over ;;
      if over then modify (with_state GameOver) else ret tt
  | GameOver =>
      println FAREWELL
  end.

(** [AceyDucey::run]: the loop, for at most [fuel] passes through its
    body; [None] when the loop is still running after them. *)
Fixpoint run (fuel : nat) (g : AceyDucey) : option (outcome unit) :=
  if State_eqb (state g) GameOver then Some (Returns tt g)
  else
    match fuel with
    | O => None
    | S fuel' =>
        match run_body g with
        | Returns _ g' => run fuel' g'
        | Throws e g' => Some (Throws e g')
        end
    end.

(** The objects the loop of [run] passes through, from [g0] on: [g0], and
    what a pass through the body makes of one that is not [GameOver]. *)
Inductive loop_reaches (g0 : AceyDucey) : AceyDucey -> Prop :=
| reaches_start : loop_reaches g0 g0
| reaches_pass (g g' : AceyDucey) :
    loop_reaches g0 g ->
    state g <> GameOver ->
    run_body g = Returns tt g' ->
    loop_reaches g0 g'.

(** The start of a round: the loop of [run], begun on a newly constructed
    object, is at [g] and its [switch] is about to call [play_turn]. *)
Definition round_start (g : AceyDucey) : Prop :=
  (exists r input, loop_reaches (new_game r input) g) /\
  (state g = Playing \/ state g = BetNothing).

(** ** What a round meets: the cards and the lines *)

(** The engine after [n] more numbers have been taken from it. *)
Definition drawn (n : nat) (r : Rng) : Rng :=
  mkRng (samples r) (n + cursor r).

Definition value_of {A : Type} (d : A) (o : outcome A) : A :=
  match o with
  | Returns a _ => a
  | Throws _ _ => d
  end.

Definition object_of {A : Type} (o : outcome A) : AceyDucey :=
  match o with
  | Returns _ g => g
  | Throws _ g => g
  end.

(** The cards the next three calls of [deal_card] return. *)
Definition first_pick (g : AceyDucey) : string :=
  value_of EmptyString (deal_card g).

Definition second_pick (g : AceyDucey) : string :=
  value_of EmptyString (deal_card (object_of (deal_card g))).

Definition third_pick (g : AceyDucey) : string :=
  value_of EmptyString
    (deal_card (object_of (deal_card (object_of (deal_card g))))).

(** What the next two calls of [get_input_line] return: in a round, the
    answer to the bet prompt and the answer to the broke prompt. *)
Definition bet_line (g : AceyDucey) : string :=
  value_of EmptyString (get_input_line g).

Definition response_line (g : AceyDucey) : string :=
  value_of EmptyString (get_input_line (object_of (get_input_line g))).

(** The test of [get_positive_integer]: not empty, decimal digits only. *)
Definition all_digits (s : string) : bool :=
  negb (empty s) && all_of isdigit s.

(** What [print_cards a b] writes to [std::cout] and to [std::cerr]. *)
Definition cards_out (a b : string) : list string :=
  let idx_a := index_of_or_minus1 a in
  let idx_b := index_of_or_minus1 b in
  if (idx_a =? -1) || (idx_b =? -1) then []
  else [line (if idx_a >? idx_b then b ++ " " ++ a else a ++ " " ++ b)].

Definition cards_err (a b : string) : list string :=
  if (index_of_or_minus1 a =? -1) || (index_of_or_minus1 b =? -1)
  then [line "Error: Invalid card rank(s)."]
  else [].

(** What a round writes before it reads the bet. *)
Definition opening (g : AceyDucey) : list string :=
  (if State_eqb (state g) Playing
   then [line ("YOU NOW HAVE $" ++ format_int (balance g) ++ " DOLLARS")]
   else []) ++
  [line "HERE ARE YOUR NEXT TWO CARDS:"] ++
  cards_out (first_pick g) (second_pick g) ++
  ["WHAT IS YOUR BET "].

(** The object when the round that began at [g] has read the bet: two
    cards dealt and shown, one line read. *)
Definition asked (g : AceyDucey) : AceyDucey :=
  mkAceyDucey (balance g) (state g) (deck g) (drawn 2 (rng g))
    (tl (cin g)) (cout g ++ opening g)
    (cerr g ++ cards_err (first_pick g) (second_pick g)).

(** [AceyDucey::play_turn], the settlement of a bet the player can pay:
    the third card is dealt and shown, [is_between] is tested, and the
    bet is added to the balance or taken from it.  The value tells
    whether the bet was won. *)
Definition settle (first_pick second_pick : string) (bet : Z) : M bool :=
  third_pick <- deal_card ;;
  println third_pick ;;
  if is_between first_pick second_pick third_pick then
    println "YOU WIN!!!" ;;
    modify (fun g => with_balance (wrap_int (balance g + bet)) g) ;;
    ret true
  else
    println "SORRY, YOU LOSE" ;;
    modify (fun g => with_balance (wrap_int (balance g - bet)) g) ;;
    ret false.

(** [AceyDucey::play_turn], what follows the settlement: after a lost
    bet the test of the balance and, at 0 or below, the broke block; then
    the assignment that closes the function. *)
Definition after_settlement (won : bool) : M unit :=
  (if won then ret tt
   else
     b' <- gets balance ;;
     if b' <=? 0 then broke else ret tt) ;;
  modify (with_state Playing).

(** The two lines of the broke prompt. *)
Definition broke_prompt : list string :=
  [line "SORRY, FRIEND, BUT YOU BLEW YOUR WAD."; "TRY AGAIN (YES OR NO)? "].

(** What the [Initialising] pass of [run] writes. *)
Definition banner : list string :=
  [line (format_center 66 "ACEY DUCEY CARD GAME");
   line (format_center 66 "CREATIVE COMPUTING  MORRISTOWN, NEW JERSEY");
   line "";
   line "ACEY-DUCEY IS PLAYED IN THE FOLLOWING MANNER";
   line "THE DEALER (COMPUTER) DEALS TWO CARDS FACE UP";
   line "YOU HAVE AN OPTION TO BET OR NOT BET DEPENDING";
   line "ON WHETHER OR NOT YOU FEEL THE CARD WILL HAVE";
   line "A VALUE BETWEEN THE FIRST TWO."].

(** Whether [int] can hold [z]. *)
Definition fits_int (z : Z) : Prop := INT_MIN <= z <= INT_MAX.

(** A test that tells the farewell line from every other line the game
    writes: the first letter. *)
Definition begins_with_G (s : string) : bool :=
  match s with
  | String "G" _ => true
  | _ => false
  end.

(** The output has no line that could be the farewell, and the deck is
    the rank table. *)
Definition tidy (g : AceyDucey) : Prop :=
  deck g = CARDS /\ Forall (fun c => begins_with_G c = false) (cout g).

(** An engine that hands out the numbers of [l], then zeros. *)
Definition rng_of_list (l : list nat) : Rng :=
  mkRng (fun n => nth n l O) O.

(** ** The program *)

(** [main]: constructs the game and calls [run] once; the engine and the
    lines on standard input are what the environment supplies. *)
Definition main (fuel : nat) (r : Rng) (input : list string)
  : option (outcome unit) :=
  run fuel (new_game r input).

(** [<cctype>]'s [islower] in the "C" locale. *)
Definition islower (c : ascii) : bool :=
  let n := nat_of_ascii c in
  (97 <=? n)%nat && (n <=? 122)%nat.

(** An input line that [play_turn] takes for no bet: once read by
    [get_input_line] it is not a run of digits, or is one that writes 0. *)
Definition declines (raw : string) : bool :=
  negb (all_digits (sanitize raw)) || (digits_value 0 (sanitize raw) <=? 0).

(** ** Tactics *)

(** Runs the glue of the monad and reads members through updates. *)
Ltac exec :=
  cbv beta iota zeta delta
    [bind gets modify ret println print call deal_card
     uniform_int_distribution get_input_line getline is_game_over
     first_pick second_pick third_pick bet_line response_line
     value_of object_of drawn asked] in *;
  cbn [balance state deck rng cin cout cerr samples cursor
       with_balance with_state with_rng with_cin with_cout with_cerr] in *.

(** Splits on the conditions the goal still tests. *)
Ltac branch :=
  match goal with
  | |- context [if ?c then _ else _] => destruct c eqn:?
  end.

(** Takes a [Forall] over written output apart, chunk by chunk. *)
Ltac chunks :=
  repeat match goal with
         | |- Forall _ (_ ++ _) => apply Forall_app; split
         | |- Forall _ (_ :: _) => constructor
         | |- Forall _ [] => constructor
         end.

(** ** Properties of the rank comparison *)

Lemma index_of_ordinal (c : string) (i : nat) :
  nth_error CARDS i = Some c -> index_of c = Z.of_nat i.
Proof.
  intros H.
  do 13 (destruct i as [|i];
         [injection H as <-; reflexivity | simpl in H]).
  destruct i; discriminate H.
Qed.

Lemma is_between_spec (a b test : string) :
  is_between a b test = true <->
  Z.min (index_of a) (index_of b) < index_of test
    < Z.max (index_of a) (index_of b).
Proof.
  unfold is_between.
  destruct (Z.gtb_spec (index_of a) (index_of b));
    rewrite andb_true_iff, Z.gtb_ltb, !Z.ltb_lt; lia.
Qed.

(** C1.  For rank labels [a], [b], [test] of the table, at the ordinal
    positions [i], [j], [k]: [is_between a b test] is true exactly when
    [k] is strictly greater than the smaller of [i], [j] and strictly less
    than the larger; it is false when [k] is one of the bounds, and
    [is_between a a test] is false. *)
Theorem is_between_strict_interval (a b test : string) (i j k : nat) :
  nth_error CARDS i = Some a ->
  nth_error CARDS j = Some b ->
  nth_error CARDS k = Some test ->
  (is_between a b test = true <-> (Nat.min i j < k < Nat.max i j)%nat) /\
  (k = i \/ k = j -> is_between a b test = false) /\
  is_between a a test = false.
Proof.
  intros Ha Hb Ht.
  pose proof (is_between_spec a b test) as Hab.
  pose proof (is_between_spec a a test) as Haa.
  rewrite (index_of_ordinal _ _ Ha), (index_of_ordinal _ _ Hb),
    (index_of_ordinal _ _ Ht) in *.
  split; [rewrite Hab; lia | split].
  - intros Hk.
    destruct (is_between a b test); [|reflexivity].
    destruct Hab as [Hab _]. specialize (Hab eq_refl). lia.
  - destruct (is_between a a test); [|reflexivity].
    destruct Haa as [Haa _]. specialize (Haa eq_refl). lia.
Qed.

Lemma is_between_strict_interval_witness :
  (is_between "4" "K" "9" = true <-> (Nat.min 2 11 < 7 < Nat.max 2 11)%nat) /\
  (7%nat = 2%nat \/ 7%nat = 11%nat -> is_between "4" "K" "9" = false) /\
  is_between "4" "4" "9" = false.
Proof.
  apply (is_between_strict_interval "4" "K" "9" 2 11 7); reflexivity.
Defined.

(** C9.  [is_between a b test] is [is_between b a test]: the order of the
    two bounds does not matter (for labels of the table and for any other
    string). *)
Theorem is_between_bounds_swap (a b test : string) :
  is_between a b test = is_between b a test.
Proof.
  apply eq_true_iff_eq.
  rewrite !is_between_spec. lia.
Qed.

(** ** The bet parser *)

Lemma isdigit_char (c : ascii) :
  isdigit c = true ->
  isspace c = false /\ c <> "-"%char /\ c <> "+"%char /\
  0 <= Z.of_nat (nat_of_ascii c) - 48 <= 9.
Proof.
  destruct c as [[] [] [] [] [] [] [] []]; intros H;
    try discriminate H; repeat split; try discriminate; cbv; discriminate.
Qed.

Lemma take_while_all_of (p : ascii -> bool) (s : string) :
  all_of p s = true -> take_while p s = s.
Proof.
  induction s as [|c s IH]; simpl; [reflexivity|].
  destruct (p c); simpl; [|discriminate].
  intros H. rewrite (IH H). reflexivity.
Qed.

Lemma digits_value_lower (s : string) (acc : Z) :
  all_of isdigit s = true -> 0 <= acc -> acc <= digits_value acc s.
Proof.
  revert acc.
  induction s as [|c s IH]; cbn [all_of digits_value]; intros acc H Hacc;
    [lia|].
  apply andb_true_iff in H as [Hc Hs].
  apply isdigit_char in Hc as (_ & _ & _ & Hc).
  specialize (IH (10 * acc + (Z.of_nat (nat_of_ascii c) - 48)) Hs
                ltac:(lia)).
  lia.
Qed.

Lemma stoi_all_digits (s : string) :
  all_digits s = true ->
  stoi s = if digits_value 0 s <=? INT_MAX then Value (digits_value 0 s)
           else Raised out_of_range.
Proof.
  unfold all_digits. intros H. apply andb_true_iff in H as [Hne Hd].
  pose proof (digits_value_lower s 0 Hd ltac:(lia)) as Hlow.
  destruct s as [|c s]; [discriminate Hne|].
  pose proof Hd as Hd'. simpl in Hd'. apply andb_true_iff in Hd' as [Hc Hs].
  destruct (isdigit_char c Hc) as (Hsp & Hminus & Hplus & _).
  unfold stoi. cbn [erase_leading]. rewrite Hsp.
  assert (E : match String c s with
              | String "-" s' => (true, s')
              | String "+" s' => (false, s')
              | _ => (false, String c s)
              end = (false, String c s)).
  { destruct c as [[] [] [] [] [] [] [] []]; try reflexivity; congruence. }
  rewrite E. rewrite (take_while_all_of _ _ Hd). cbn [empty].
  replace (INT_MIN <=? digits_value 0 (String c s)) with true
    by (symmetry; apply Z.leb_le; unfold INT_MIN; lia).
  reflexivity.
Qed.

(** What the parser does with every string: the number, for digits that
    write an [int]; an exception, for digits that write more; -1, for
    anything else. *)
Lemma get_positive_integer_cases (s : string) :
  get_positive_integer s =
  if all_digits s then
    if digits_value 0 s <=? INT_MAX then Value (digits_value 0 s)
    else Raised out_of_range
  else Value (-1).
Proof.
  unfold get_positive_integer. fold (all_digits s).
  destruct (all_digits s) eqn:E; [apply stoi_all_digits, E | reflexivity].
Qed.

Lemma get_positive_integer_declined (s : string) :
  all_digits s = false \/ (all_digits s = true /\ digits_value 0 s <= 0) ->
  exists bet, get_positive_integer s = Value bet /\ bet <= 0.
Proof.
  rewrite get_positive_integer_cases.
  intros [-> | [-> H]]; [exists (-1); split; [reflexivity | lia]|].
  exists (digits_value 0 s).
  destruct (Z.leb_spec (digits_value 0 s) INT_MAX) as [_|H'];
    [split; [reflexivity | exact H] | unfold INT_MAX in H'; lia].
Qed.

(** C7.  [get_positive_integer] does not return the number written by
    every non-empty string of decimal digits: "2147483648" is one, and on
    it the call of [std::stoi] throws [std::out_of_range], so that nothing
    is returned. *)
Theorem get_positive_integer_out_of_range :
  all_digits "2147483648" = true /\
  digits_value 0 "2147483648" = 2147483648 /\
  get_positive_integer "2147483648" = Raised out_of_range.
Proof.
  repeat split.
Qed.

(** ** One round *)

Lemma wrap_int_fits (z : Z) : fits_int z -> wrap_int z = z.
Proof.
  unfold fits_int, wrap_int, INT_MIN, INT_MAX. intros H.
  rewrite Z.mod_small; lia.
Qed.

Lemma object_eq (g h : AceyDucey) :
  balance g = balance h -> state g = state h -> deck g = deck h ->
  rng g = rng h -> cin g = cin h -> cout g = cout h -> cerr g = cerr h ->
  g = h.
Proof.
  destruct g, h; cbn; intros; subst; reflexivity.
Qed.

Lemma print_cards_returns (a b : string) (g : AceyDucey) :
  print_cards a b g =
  Returns tt
    (with_cerr (cerr g ++ cards_err a b) (with_cout (cout g ++ cards_out a b) g)).
Proof.
  unfold print_cards, cards_err, cards_out.
  destruct (_ || _).
  - cbv [modify]. f_equal. apply object_eq; exec;
      rewrite ?app_nil_r; reflexivity.
  - destruct (_ >? _); cbv [println print modify]; f_equal;
      apply object_eq; exec; rewrite ?app_nil_r; reflexivity.
Qed.

(** A round up to the bet: [play_turn] is the rest of it, run on [asked]. *)
Lemma play_turn_prologue (g : AceyDucey) :
  play_turn g =
  (bet <- call (get_positive_integer (bet_line g)) ;;
   take_bet (first_pick g) (second_pick g) bet) (asked g).
Proof.
  unfold play_turn, opening.
  cbv beta iota delta [bind gets].
  destruct (State_eqb (state g) Playing) eqn:E; exec;
    rewrite print_cards_returns; exec;
    destruct (get_positive_integer _); f_equal;
    apply object_eq; unfold opening; exec; rewrite ?E;
    rewrite <- ?app_assoc; reflexivity.
Qed.

Lemma play_turn_parsed (g : AceyDucey) (bet : Z) :
  get_positive_integer (bet_line g) = Value bet ->
  play_turn g = take_bet (first_pick g) (second_pick g) bet (asked g).
Proof.
  intros H. rewrite play_turn_prologue.
  unfold bind, call. rewrite H. reflexivity.
Qed.

Lemma third_pick_asked (g : AceyDucey) :
  value_of EmptyString (deal_card (asked g)) = third_pick g.
Proof. reflexivity. Qed.

Lemma response_line_asked (g : AceyDucey) :
  bet_line (asked g) = response_line g.
Proof. reflexivity. Qed.

Lemma take_bet_chicken (a b : string) (bet : Z) (g : AceyDucey) :
  bet <= 0 ->
  take_bet a b bet g =
  Returns tt
    (with_state BetNothing (with_cout (cout g ++ [line "CHICKEN!!"]) g)).
Proof.
  intros H. unfold take_bet. exec.
  apply Z.leb_le in H. rewrite H. reflexivity.
Qed.

Lemma take_bet_too_much (a b : string) (bet : Z) (g : AceyDucey) :
  0 < bet -> balance g < bet ->
  take_bet a b bet g =
  Returns tt
    (with_state Playing
       (with_cout
          (cout g ++
           [line "SORRY, MY FRIEND, BUT YOU BET TOO MUCH.";
            line ("YOU HAVE ONLY " ++ format_int (balance g) ++
                  " DOLLARS TO BET.")]) g)).
Proof.
  intros H0 H. unfold take_bet. exec.
  destruct (Z.leb_spec bet 0); [lia|].
  rewrite Z.gtb_ltb. destruct (Z.ltb_spec (balance g) bet); [|lia].
  exec. f_equal. apply object_eq; exec; rewrite <- ?app_assoc; reflexivity.
Qed.

Lemma take_bet_win (a b : string) (bet : Z) (g : AceyDucey) :
  0 < bet <= balance g ->
  is_between a b (value_of EmptyString (deal_card g)) = true ->
  take_bet a b bet g =
  Returns tt
    (with_state Playing
       (with_balance (wrap_int (balance g + bet))
          (with_cout
             (cout g ++
              [line (value_of EmptyString (deal_card g)); line "YOU WIN!!!"])
             (with_rng (drawn 1 (rng g)) g)))).
Proof.
  intros H Hb. unfold take_bet. exec.
  destruct (Z.leb_spec bet 0); [lia|].
  rewrite Z.gtb_ltb. destruct (Z.ltb_spec (balance g) bet); [lia|].
  exec. rewrite Hb.
  f_equal. apply object_eq; exec; rewrite <- ?app_assoc; reflexivity.
Qed.

(** A lost bet: the balance goes down by the bet; when that leaves
    nothing, the prompt, and the answer decides between a new 100 and
    [GameOver]; then the closing assignment. *)
Lemma take_bet_loss (a b : string) (bet : Z) (g : AceyDucey) :
  0 < bet <= balance g ->
  is_between a b (value_of EmptyString (deal_card g)) = false ->
  take_bet a b bet g =
  Returns tt
    (let lost :=
       with_balance (wrap_int (balance g - bet))
         (with_cout
            (cout g ++
             [line (value_of EmptyString (deal_card g));
              line "SORRY, YOU LOSE"])
            (with_rng (drawn 1 (rng g)) g)) in
     with_state Playing
       (if balance lost <=? 0 then
          let answered :=
            with_cin (tl (cin g)) (with_cout (cout lost ++ broke_prompt) lost)
          in
          if String.eqb (bet_line g) "YES"
          then with_balance 100 (with_state Playing answered)
          else with_state GameOver answered
        else lost)).
Proof.
  intros H Hb. unfold take_bet. exec.
  destruct (Z.leb_spec bet 0); [lia|].
  rewrite Z.gtb_ltb. destruct (Z.ltb_spec (balance g) bet); [lia|].
  exec. rewrite Hb. unfold broke, broke_prompt. exec.
  repeat branch; exec; try congruence; f_equal;
    apply object_eq; exec; rewrite <- ?app_assoc; reflexivity.
Qed.

(** C3.  When the answer to the bet prompt is not a non-empty string of
    digits, or is one that writes a number <= 0, [play_turn] returns
    having written "CHICKEN!!" last, with the state [BetNothing], the
    balance as it was, and the engine two draws on: no third card. *)
Theorem play_turn_declined (g : AceyDucey) :
  all_digits (bet_line g) = false \/
  (all_digits (bet_line g) = true /\ digits_value 0 (bet_line g) <= 0) ->
  exists g',
    play_turn g = Returns tt g' /\
    cout g' = (cout g ++ opening g ++ [line "CHICKEN!!"])%list /\
    state g' = BetNothing /\
    balance g' = balance g /\
    rng g' = drawn 2 (rng g).
Proof.
  intros H.
  destruct (get_positive_integer_declined _ H) as (bet & Hbet & Hle).
  rewrite (play_turn_parsed _ _ Hbet), (take_bet_chicken _ _ _ _ Hle).
  eexists. split; [reflexivity|].
  exec. rewrite <- app_assoc. repeat split.
Qed.

Lemma play_turn_declined_witness :
  exists g',
    play_turn (mkAceyDucey 100 Playing CARDS (rng_of_list [3; 9]%nat)
                 ["no bet"] [] []) = Returns tt g' /\
    cout g' =
      [line "YOU NOW HAVE $100 DOLLARS";
       line "HERE ARE YOUR NEXT TWO CARDS:"; line "5 J";
       "WHAT IS YOUR BET "; line "CHICKEN!!"] /\
    state g' = BetNothing /\
    balance g' = 100 /\
    rng g' = drawn 2 (rng_of_list [3; 9]%nat).
Proof.
  apply (play_turn_declined
           (mkAceyDucey 100 Playing CARDS (rng_of_list [3; 9]%nat)
              ["no bet"] [] [])).
  left. reflexivity.
Defined.

(** ** The loop of [run] *)

Lemma State_eqb_eq (s t : State) : State_eqb s t = true <-> s = t.
Proof.
  destruct s, t; cbn; split; intros H; try reflexivity; discriminate H.
Qed.

Lemma run_body_initialising (g : AceyDucey) :
  state g = Initialising ->
  run_body g = Returns tt (with_state Playing (with_cout (cout g ++ banner) g)).
Proof.
  intros H. unfold run_body, print_intro, print_instructions, banner.
  exec. rewrite H. exec.
  f_equal. apply object_eq; exec; rewrite <- ?app_assoc; reflexivity.
Qed.

Lemma run_body_round (g : AceyDucey) :
  state g = Playing \/ state g = BetNothing ->
  run_body g =
  match play_turn g with
  | Returns _ g1 =>
      Returns tt (if balance g1 <=? 0 then with_state GameOver g1 else g1)
  | Throws e g1 => Throws e g1
  end.
Proof.
  intros H. unfold run_body. exec.
  destruct H as [-> | ->]; destruct (play_turn g) as [[] g1 | e g1];
    try reflexivity; exec; destruct (balance g1 <=? 0); reflexivity.
Qed.

(** What a pass through the body of the loop leaves is [GameOver] or has
    money, if the pass began with money. *)
Lemma run_body_keeps_money (g g' : AceyDucey) :
  state g <> GameOver ->
  0 < balance g ->
  run_body g = Returns tt g' ->
  balance g' <= 0 -> state g' = GameOver.
Proof.
  intros Hs Hb E Hle.
  destruct (state g) eqn:S; [| | |congruence].
  - rewrite (run_body_initialising _ S) in E.
    injection E as <-. exec. lia.
  - rewrite run_body_round in E by auto.
    destruct (play_turn g) as [[] g1 | e g1]; [|discriminate E].
    injection E as <-.
    destruct (Z.leb_spec (balance g1) 0) as [L|L]; [reflexivity | lia].
  - rewrite run_body_round in E by auto.
    destruct (play_turn g) as [[] g1 | e g1]; [|discriminate E].
    injection E as <-.
    destruct (Z.leb_spec (balance g1) 0) as [L|L]; [reflexivity | lia].
Qed.

Lemma loop_keeps_money (r : Rng) (input : list string) (g : AceyDucey) :
  loop_reaches (new_game r input) g ->
  state g <> GameOver -> 0 < balance g.
Proof.
  induction 1 as [|g g' Hreach IH Hs E]; [cbn; lia|].
  intros Hs'. specialize (IH Hs).
  destruct (Z.ltb_spec 0 (balance g')) as [L|L]; [exact L|].
  elim Hs'. exact (run_body_keeps_money g g' Hs IH E L).
Qed.

Lemma round_start_money (g : AceyDucey) :
  round_start g -> 0 < balance g.
Proof.
  intros [(r & input & H) Hs].
  apply (loop_keeps_money r input g H).
  destruct Hs as [-> | ->]; discriminate.
Qed.

(** The objects the loop of [run] returns with are objects it reaches. *)
Lemma run_reaches (fuel : nat) (g0 g g' : AceyDucey) :
  loop_reaches g0 g ->
  run fuel g = Some (Returns tt g') ->
  loop_reaches g0 g' /\ state g' = GameOver.
Proof.
  revert g. induction fuel as [|fuel IH]; intros g Hreach; cbn [run];
    destruct (State_eqb (state g) GameOver) eqn:S; intros E;
    try discriminate E.
  - injection E as <-. apply State_eqb_eq in S. auto.
  - injection E as <-. apply State_eqb_eq in S. auto.
  - destruct (run_body g) as [[] g1 | e g1] eqn:B; [|discriminate E].
    apply (IH g1); [|exact E].
    apply (reaches_pass g0 g g1 Hreach); [|exact B].
    intros C. apply State_eqb_eq in C. congruence.
Qed.

(** Once [GameOver], the loop is left at its next test. *)
Lemma run_game_over (fuel : nat) (g : AceyDucey) :
  state g = GameOver -> run fuel g = Some (Returns tt g).
Proof.
  intros H. destruct fuel; cbn [run]; rewrite H; reflexivity.
Qed.

(** ** The three ways a bet goes *)

(** C4.  In a round of [run] where the parsed bet exceeds the balance,
    [play_turn] returns having written, last, the two lines of the
    warning, the second naming the balance; the balance is as it was,
    the engine is two draws on (no third card), the state is [Playing]. *)
Theorem play_turn_bet_too_much (g : AceyDucey) (bet : Z) :
  round_start g ->
  get_positive_integer (bet_line g) = Value bet ->
  balance g < bet ->
  exists g',
    play_turn g = Returns tt g' /\
    cout g' =
      (cout g ++ opening g ++
       [line "SORRY, MY FRIEND, BUT YOU BET TOO MUCH.";
        line ("YOU HAVE ONLY " ++ format_int (balance g) ++
              " DOLLARS TO BET.")])%list /\
    balance g' = balance g /\
    rng g' = drawn 2 (rng g) /\
    state g' = Playing.
Proof.
  intros Hround Hbet Hlt.
  pose proof (round_start_money g Hround) as Hpos.
  rewrite (play_turn_parsed _ _ Hbet).
  rewrite take_bet_too_much by (exec; lia).
  eexists. split; [reflexivity|].
  exec. rewrite <- app_assoc. repeat split.
Qed.

Lemma play_turn_bet_too_much_witness :
  exists g',
    play_turn
      (object_of (run_body (new_game (rng_of_list [0; 12]%nat) ["500"]))) =
    Returns tt g' /\
    cout g' =
      (banner ++
       [line "YOU NOW HAVE $100 DOLLARS";
        line "HERE ARE YOUR NEXT TWO CARDS:"; line "2 A";
        "WHAT IS YOUR BET ";
        line "SORRY, MY FRIEND, BUT YOU BET TOO MUCH.";
        line "YOU HAVE ONLY 100 DOLLARS TO BET."])%list /\
    balance g' = 100 /\
    rng g' = drawn 2 (rng_of_list [0; 12]%nat) /\
    state g' = Playing.
Proof.
  apply (play_turn_bet_too_much
           (object_of (run_body (new_game (rng_of_list [0; 12]%nat) ["500"])))
           500).
  - split; [|left; reflexivity].
    exists (rng_of_list [0; 12]%nat), ["500"].
    apply (reaches_pass _ (new_game (rng_of_list [0; 12]%nat) ["500"]));
      [apply reaches_start | discriminate | reflexivity].
  - reflexivity.
  - reflexivity.
Defined.

(** In the branch of a bet the player can pay, [take_bet] is the
    settlement and then what follows it. *)
Lemma take_bet_settle (a b : string) (bet : Z) (g : AceyDucey) :
  0 < bet <= balance g ->
  take_bet a b bet g =
  (won <- settle a b bet ;; after_settlement won) g.
Proof.
  intros H. unfold take_bet, settle, after_settlement. exec.
  destruct (Z.leb_spec bet 0); [lia|].
  rewrite Z.gtb_ltb. destruct (Z.ltb_spec (balance g) bet); [lia|].
  exec. destruct (is_between a b _); reflexivity.
Qed.

Lemma settle_returns (a b : string) (bet : Z) (g : AceyDucey) :
  settle a b bet g =
  (let third := value_of EmptyString (deal_card g) in
   let won := is_between a b third in
   Returns won
     (with_balance
        (wrap_int (if won then balance g + bet else balance g - bet))
        (with_cout
           (cout g ++
            [line third;
             line (if won then "YOU WIN!!!" else "SORRY, YOU LOSE")])
           (with_rng (drawn 1 (rng g)) g)))).
Proof.
  unfold settle. exec.
  destruct (is_between a b _); f_equal;
    apply object_eq; exec; rewrite <- ?app_assoc; reflexivity.
Qed.

(** C2, as the code has it.  In a round where the parsed bet is positive
    and at most the balance, [play_turn] goes on to the settlement: it
    deals a third card, shows it and tests [is_between] on the three
    cards.  When the test holds the settlement leaves the balance the
    bet higher, provided the sum is an [int]; when it fails the
    settlement leaves the balance the bet lower.  It adds and takes
    nothing else: state, deck and input are as they were, and the round
    is what follows the settlement, run on the object it leaves. *)
Theorem play_turn_settles (g : AceyDucey) (bet : Z) :
  get_positive_integer (bet_line g) = Value bet ->
  0 < bet <= balance g ->
  fits_int (balance g) ->
  exists settled,
    settle (first_pick g) (second_pick g) bet (asked g) =
    Returns (is_between (first_pick g) (second_pick g) (third_pick g))
      settled /\
    play_turn g =
    after_settlement
      (is_between (first_pick g) (second_pick g) (third_pick g)) settled /\
    rng settled = drawn 3 (rng g) /\
    state settled = state g /\ deck settled = deck g /\
    cin settled = tl (cin g) /\
    (is_between (first_pick g) (second_pick g) (third_pick g) = true ->
     fits_int (balance g + bet) ->
     balance settled = balance g + bet /\
     cout settled =
       (cout g ++ opening g ++
        [line (third_pick g); line "YOU WIN!!!"])%list) /\
    (is_between (first_pick g) (second_pick g) (third_pick g) = false ->
     balance settled = balance g - bet /\
     cout settled =
       (cout g ++ opening g ++
        [line (third_pick g); line "SORRY, YOU LOSE"])%list).
Proof.
  intros Hbet Hrange Hfit.
  rewrite (play_turn_parsed _ _ Hbet).
  rewrite (take_bet_settle _ _ _ (asked g) Hrange).
  unfold bind. rewrite settle_returns. cbv zeta.
  change (value_of EmptyString (deal_card (asked g))) with (third_pick g).
  eexists. split; [reflexivity|]. split; [reflexivity|].
  split; [reflexivity|]. split; [reflexivity|]. split; [reflexivity|].
  split; [reflexivity|].
  split; intros B; rewrite B.
  - intros Hsum. exec. rewrite (wrap_int_fits _ Hsum), <- app_assoc.
    split; reflexivity.
  - exec. rewrite wrap_int_fits
      by (unfold fits_int, INT_MIN, INT_MAX in *; lia).
    rewrite <- app_assoc. split; reflexivity.
Qed.

Lemma play_turn_settles_witness :
  exists settled,
    settle "4" "K" 50
      (asked (mkAceyDucey 100 Playing CARDS (rng_of_list [2; 11; 7]%nat)
                ["50"] [] [])) =
    Returns (is_between "4" "K" "9") settled /\
    play_turn (mkAceyDucey 100 Playing CARDS (rng_of_list [2; 11; 7]%nat)
                 ["50"] [] []) =
    after_settlement (is_between "4" "K" "9") settled /\
    rng settled = drawn 3 (rng_of_list [2; 11; 7]%nat) /\
    state settled = Playing /\ deck settled = CARDS /\
    cin settled = [] /\
    (is_between "4" "K" "9" = true ->
     fits_int (100 + 50) ->
     balance settled = 100 + 50 /\
     cout settled =
       [line "YOU NOW HAVE $100 DOLLARS";
        line "HERE ARE YOUR NEXT TWO CARDS:"; line "4 K";
        "WHAT IS YOUR BET "; line "9"; line "YOU WIN!!!"]) /\
    (is_between "4" "K" "9" = false ->
     balance settled = 100 - 50 /\
     cout settled =
       [line "YOU NOW HAVE $100 DOLLARS";
        line "HERE ARE YOUR NEXT TWO CARDS:"; line "4 K";
        "WHAT IS YOUR BET "; line "9"; line "SORRY, YOU LOSE"]).
Proof.
  apply (play_turn_settles
           (mkAceyDucey 100 Playing CARDS (rng_of_list [2; 11; 7]%nat)
              ["50"] [] []) 50).
  - reflexivity.
  - cbn. lia.
  - unfold fits_int, INT_MIN, INT_MAX. cbn. lia.
Defined.

(** C2 as it is stated fails on a won bet whose sum with the balance is
    past [INT_MAX]: with the balance 2000000000 and the bet 2000000000
    the settlement does not leave the balance the bet higher, and the
    balance at the return of [play_turn] is not the sum either. *)
Lemma play_turn_settles_counterexample :
  get_positive_integer
    (bet_line (mkAceyDucey 2000000000 Playing CARDS
                 (rng_of_list [2; 11; 7]%nat) ["2000000000"] [] [])) =
  Value 2000000000 /\
  0 < 2000000000 <= 2000000000 /\
  is_between "4" "K" "9" = true /\
  (exists settled,
     settle "4" "K" 2000000000
       (asked (mkAceyDucey 2000000000 Playing CARDS
                 (rng_of_list [2; 11; 7]%nat) ["2000000000"] [] [])) =
     Returns true settled /\
     balance settled = -294967296 /\
     balance settled <> 2000000000 + 2000000000) /\
  exists g',
    play_turn (mkAceyDucey 2000000000 Playing CARDS
                 (rng_of_list [2; 11; 7]%nat) ["2000000000"] [] []) =
    Returns tt g' /\
    cout g' =
      [line "YOU NOW HAVE $2000000000 DOLLARS";
       line "HERE ARE YOUR NEXT TWO CARDS:"; line "4 K";
       "WHAT IS YOUR BET "; line "9"; line "YOU WIN!!!"] /\
    balance g' = -294967296 /\
    balance g' <> 2000000000 + 2000000000.
Proof.
  split; [reflexivity|]. split; [lia|]. split; [reflexivity|]. split.
  - eexists. split; [vm_compute; reflexivity|].
    split; [reflexivity | discriminate].
  - eexists. split; [vm_compute; reflexivity|].
    repeat split. discriminate.
Qed.

(** The settlement of a lost bet is exact also when it leaves nothing
    and the player starts again: the balance the settlement leaves is 0,
    and the 100 at the return comes from the broke block after it. *)
Example settle_before_reset :
  exists settled g',
    settle "2" "3" 100
      (asked (mkAceyDucey 100 Playing CARDS (rng_of_list [0; 1; 5]%nat)
                ["100"; "yes"] [] [])) = Returns false settled /\
    balance settled = 100 - 100 /\
    play_turn (mkAceyDucey 100 Playing CARDS (rng_of_list [0; 1; 5]%nat)
                 ["100"; "yes"] [] []) = Returns tt g' /\
    after_settlement false settled = Returns tt g' /\
    balance g' = 100.
Proof.
  eexists. eexists. split; [vm_compute; reflexivity|].
  split; [reflexivity|]. split; [vm_compute; reflexivity|].
  split; [vm_compute; reflexivity | reflexivity].
Qed.

(** C5.  In a pass of the loop that plays a round, when a lost bet takes
    the balance to 0 or below, the two lines of the broke prompt are
    written, last.  The answer is the next line of input, trimmed and in
    upper case: if it is "YES" the pass ends with the balance 100 and the
    state [Playing]; if it is anything else the pass ends with the state
    [GameOver], and [run] returns at its next test. *)
Theorem broke_round (g : AceyDucey) (bet : Z) :
  state g = Playing \/ state g = BetNothing ->
  get_positive_integer (bet_line g) = Value bet ->
  0 < bet <= balance g ->
  fits_int (balance g) ->
  is_between (first_pick g) (second_pick g) (third_pick g) = false ->
  balance g - bet <= 0 ->
  exists g',
    run_body g = Returns tt g' /\
    cout g' =
      (cout g ++ opening g ++
       [line (third_pick g); line "SORRY, YOU LOSE"] ++ broke_prompt)%list /\
    response_line g = sanitize (nth 1 (cin g) EmptyString) /\
    (response_line g = "YES" -> balance g' = 100 /\ state g' = Playing) /\
    (response_line g <> "YES" ->
     state g' = GameOver /\
     forall fuel, run fuel g' = Some (Returns tt g')).
Proof.
  intros Hs Hbet Hrange Hfit B Hbroke.
  rewrite (run_body_round _ Hs), (play_turn_parsed _ _ Hbet).
  rewrite (take_bet_loss _ _ _ (asked g) Hrange B).
  assert (W : wrap_int (balance g - bet) = balance g - bet).
  { apply wrap_int_fits. unfold fits_int, INT_MIN, INT_MAX in *. lia. }
  assert (L : (balance g - bet <=? 0) = true) by (apply Z.leb_le; exact Hbroke).
  eexists. split; [reflexivity|].
  unfold broke_prompt. exec. rewrite W, L.
  assert (N : nth 1 (cin g) EmptyString = hd EmptyString (tl (cin g))).
  { destruct (cin g) as [|? [|? ?]]; reflexivity. }
  rewrite N.
  destruct (String.eqb_spec (sanitize (hd EmptyString (tl (cin g)))) "YES")
    as [Y|Y]; exec; rewrite ?L; exec; rewrite <- !app_assoc; cbn [app].
  - repeat split; congruence.
  - repeat split; try congruence.
    intros fuel. apply run_game_over. reflexivity.
Qed.

Lemma broke_round_witness :
  exists g',
    run_body (mkAceyDucey 100 Playing CARDS (rng_of_list [0; 1; 5]%nat)
                ["100"; "  yes "] [] []) = Returns tt g' /\
    cout g' =
      [line "YOU NOW HAVE $100 DOLLARS";
       line "HERE ARE YOUR NEXT TWO CARDS:"; line "2 3";
       "WHAT IS YOUR BET "; line "7"; line "SORRY, YOU LOSE";
       line "SORRY, FRIEND, BUT YOU BLEW YOUR WAD.";
       "TRY AGAIN (YES OR NO)? "] /\
    "YES" = sanitize "  yes " /\
    ("YES" = "YES" -> balance g' = 100 /\ state g' = Playing) /\
    ("YES" <> "YES" ->
     state g' = GameOver /\
     forall fuel, run fuel g' = Some (Returns tt g')).
Proof.
  apply (broke_round
           (mkAceyDucey 100 Playing CARDS (rng_of_list [0; 1; 5]%nat)
              ["100"; "  yes "] [] []) 100).
  - left. reflexivity.
  - reflexivity.
  - cbn. lia.
  - unfold fits_int, INT_MIN, INT_MAX. cbn. lia.
  - reflexivity.
  - cbn. lia.
Defined.

(** ** The states a round ends in *)

Lemma take_bet_state (a b : string) (bet : Z) (g g' : AceyDucey) :
  take_bet a b bet g = Returns tt g' ->
  state g' = Playing \/ state g' = BetNothing.
Proof.
  unfold take_bet, broke. exec.
  repeat branch; exec; intros [= <-]; exec; auto.
Qed.

(** C10.  [play_turn] never returns with the state [GameOver]: the state
    at its return is [Playing] or [BetNothing].  So a pass of the loop
    that ends in [GameOver] got there by the test of [is_game_over] that
    follows the call: the balance the round left is 0 or below, and the
    pass ends with the object of the round, the state set to [GameOver]. *)
Theorem play_turn_never_game_over (g g' : AceyDucey) :
  play_turn g = Returns tt g' ->
  (state g' = Playing \/ state g' = BetNothing) /\
  (forall h,
     state g <> GameOver ->
     run_body g = Returns tt h ->
     state h = GameOver ->
     balance g' <= 0 /\ h = with_state GameOver g').
Proof.
  intros E.
  assert (S' : state g' = Playing \/ state g' = BetNothing).
  { rewrite play_turn_prologue in E. unfold bind, call in E.
    destruct (get_positive_integer (bet_line g)); [|discriminate E].
    exact (take_bet_state _ _ _ _ _ E). }
  split; [exact S'|].
  intros h Hs B Hh.
  destruct (state g) eqn:S; [| | |congruence].
  - rewrite (run_body_initialising _ S) in B.
    injection B as <-. discriminate Hh.
  - rewrite run_body_round, E in B by auto. injection B as <-.
    destruct (Z.leb_spec (balance g') 0) as [L|L]; [auto|].
    destruct S' as [S'|S']; congruence.
  - rewrite run_body_round, E in B by auto. injection B as <-.
    destruct (Z.leb_spec (balance g') 0) as [L|L]; [auto|].
    destruct S' as [S'|S']; congruence.
Qed.

Lemma play_turn_never_game_over_witness :
  (state (object_of (play_turn
            (mkAceyDucey 100 Playing CARDS (rng_of_list [0; 1; 5]%nat)
               ["100"; "no"] [] []))) = Playing \/
   state (object_of (play_turn
            (mkAceyDucey 100 Playing CARDS (rng_of_list [0; 1; 5]%nat)
               ["100"; "no"] [] []))) = BetNothing) /\
  (forall h,
     state (mkAceyDucey 100 Playing CARDS (rng_of_list [0; 1; 5]%nat)
              ["100"; "no"] [] []) <> GameOver ->
     run_body (mkAceyDucey 100 Playing CARDS (rng_of_list [0; 1; 5]%nat)
                 ["100"; "no"] [] []) = Returns tt h ->
     state h = GameOver ->
     balance (object_of (play_turn
                (mkAceyDucey 100 Playing CARDS (rng_of_list [0; 1; 5]%nat)
                   ["100"; "no"] [] []))) <= 0 /\
     h = with_state GameOver
           (object_of (play_turn
              (mkAceyDucey 100 Playing CARDS (rng_of_list [0; 1; 5]%nat)
                 ["100"; "no"] [] [])))).
Proof.
  apply (play_turn_never_game_over
           (mkAceyDucey 100 Playing CARDS (rng_of_list [0; 1; 5]%nat)
              ["100"; "no"] [] [])).
  vm_compute. reflexivity.
Defined.

(** The broke branch with an answer that is not "YES": the state it sets,
    [GameOver], is gone at the return; the balance 0 is what ends the
    game. *)
Example play_turn_broke_returns_playing :
  exists g',
    play_turn (mkAceyDucey 100 Playing CARDS (rng_of_list [0; 1; 5]%nat)
                 ["100"; "no"] [] []) = Returns tt g' /\
    state g' = Playing /\ balance g' = 0.
Proof.
  eexists. split; [vm_compute; reflexivity | split; reflexivity].
Qed.

(** C6.  Wherever the loop of [run], begun on a newly constructed object,
    is about to play a round, the balance is positive; and a pass through
    the body of the loop that leaves a balance of 0 or below leaves the
    state [GameOver], so that no round follows it. *)
Theorem no_round_without_money
    (r : Rng) (input : list string) (g : AceyDucey) :
  loop_reaches (new_game r input) g ->
  (state g = Playing \/ state g = BetNothing -> 0 < balance g) /\
  (forall g',
     state g <> GameOver ->
     run_body g = Returns tt g' ->
     balance g' <= 0 -> state g' = GameOver).
Proof.
  intros H. split.
  - intros Hs. apply (loop_keeps_money r input g H).
    destruct Hs as [-> | ->]; discriminate.
  - intros g' Hs E.
    exact (run_body_keeps_money g g' Hs (loop_keeps_money r input g H Hs) E).
Qed.

Lemma no_round_without_money_witness :
  (state (object_of (run_body (new_game (rng_of_list [0; 1; 5]%nat)
                                 ["100"; "no"]))) = Playing \/
   state (object_of (run_body (new_game (rng_of_list [0; 1; 5]%nat)
                                 ["100"; "no"]))) = BetNothing ->
   0 < balance (object_of (run_body (new_game (rng_of_list [0; 1; 5]%nat)
                                       ["100"; "no"])))) /\
  (forall g',
     state (object_of (run_body (new_game (rng_of_list [0; 1; 5]%nat)
                                   ["100"; "no"]))) <> GameOver ->
     run_body (object_of (run_body (new_game (rng_of_list [0; 1; 5]%nat)
                                      ["100"; "no"]))) = Returns tt g' ->
     balance g' <= 0 -> state g' = GameOver).
Proof.
  apply (no_round_without_money (rng_of_list [0; 1; 5]%nat) ["100"; "no"]).
  apply (reaches_pass _ (new_game (rng_of_list [0; 1; 5]%nat) ["100"; "no"]));
    [apply reaches_start | discriminate | reflexivity].
Defined.

(** ** The farewell *)

Lemma card_line_not_G (i : nat) :
  begins_with_G (line (nth i CARDS EmptyString)) = false.
Proof.
  do 13 (destruct i as [|i]; [reflexivity|]). destruct i; reflexivity.
Qed.

Lemma cards_line_not_G (i : nat) (t : string) :
  begins_with_G (line (nth i CARDS EmptyString ++ " " ++ t)) = false.
Proof.
  do 13 (destruct i as [|i]; [reflexivity|]). destruct i; reflexivity.
Qed.

Lemma banner_not_G : Forall (fun c => begins_with_G c = false) banner.
Proof.
  unfold banner. chunks; vm_compute; reflexivity.
Qed.

Lemma asked_tidy (g : AceyDucey) : tidy g -> tidy (asked g).
Proof.
  intros [D F]. split; [exact D|].
  unfold asked, opening, cards_out, first_pick, second_pick. exec.
  rewrite D.
  chunks; try exact F; repeat branch; chunks;
    first [reflexivity | apply cards_line_not_G].
Qed.

Lemma take_bet_tidy (a b : string) (bet : Z) (g g' : AceyDucey) :
  take_bet a b bet g = Returns tt g' -> tidy g -> tidy g'.
Proof.
  unfold take_bet, broke. exec.
  repeat branch; exec; intros [= <-] [D F]; (split; [exact D|]); exec;
    chunks; try exact F;
    first [reflexivity | rewrite D; apply card_line_not_G].
Qed.

Lemma play_turn_tidy (g g' : AceyDucey) :
  play_turn g = Returns tt g' -> tidy g -> tidy g'.
Proof.
  rewrite play_turn_prologue. unfold bind, call.
  destruct (get_positive_integer (bet_line g)); [|discriminate].
  intros E T. exact (take_bet_tidy _ _ _ _ _ E (asked_tidy g T)).
Qed.

Lemma run_body_tidy (g g' : AceyDucey) :
  state g <> GameOver ->
  run_body g = Returns tt g' -> tidy g -> tidy g'.
Proof.
  intros Hs E T.
  destruct (state g) eqn:S; [| | |congruence].
  - rewrite (run_body_initialising _ S) in E. injection E as <-.
    destruct T as [D F]. split; [exact D|]. exec.
    chunks; [exact F | exact banner_not_G].
  - rewrite run_body_round in E by auto.
    destruct (play_turn g) as [[] g1 | e g1] eqn:P; [|discriminate E].
    injection E as <-. destruct (play_turn_tidy g g1 P T) as [D F].
    destruct (balance g1 <=? 0); split; assumption.
  - rewrite run_body_round in E by auto.
    destruct (play_turn g) as [[] g1 | e g1] eqn:P; [|discriminate E].
    injection E as <-. destruct (play_turn_tidy g g1 P T) as [D F].
    destruct (balance g1 <=? 0); split; assumption.
Qed.

Lemma run_tidy (fuel : nat) (g g' : AceyDucey) :
  run fuel g = Some (Returns tt g') -> tidy g -> tidy g'.
Proof.
  revert g. induction fuel as [|fuel IH]; intros g; cbn [run];
    destruct (State_eqb (state g) GameOver) eqn:S; intros E T;
    try discriminate E.
  - injection E as <-. exact T.
  - injection E as <-. exact T.
  - destruct (run_body g) as [[] g1 | e g1] eqn:B; [|discriminate E].
    apply (IH g1 E). apply (run_body_tidy g g1); [|exact B | exact T].
    intros C. apply State_eqb_eq in C. congruence.
Qed.

(** C8.  When [run], called on a newly constructed object, returns, the
    state is [GameOver] and the farewell line has not been written: not
    once, but never.  The [case] that writes it is inside the loop that
    stops as soon as the state is [GameOver]. *)
Theorem run_returns_without_farewell
    (fuel : nat) (r : Rng) (input : list string) (g' : AceyDucey) :
  run fuel (new_game r input) = Some (Returns tt g') ->
  state g' = GameOver /\
  count_occ string_dec (cout g') (line FAREWELL) = O.
Proof.
  intros E. split.
  - exact (proj2 (run_reaches fuel _ _ _ (reaches_start _) E)).
  - apply count_occ_not_In.
    destruct (run_tidy fuel _ _ E) as [_ F]; [split; [reflexivity | constructor]|].
    intros I. rewrite Forall_forall in F. specialize (F _ I). discriminate F.
Qed.

Lemma run_returns_without_farewell_witness :
  state (mkAceyDucey 0 GameOver CARDS
           (mkRng (samples (rng_of_list [0; 1; 5]%nat)) 3) []
           (banner ++
            [line "YOU NOW HAVE $100 DOLLARS";
             line "HERE ARE YOUR NEXT TWO CARDS:"; line "2 3";
             "WHAT IS YOUR BET "; line "7"; line "SORRY, YOU LOSE";
             line "SORRY, FRIEND, BUT YOU BLEW YOUR WAD.";
             "TRY AGAIN (YES OR NO)? "]) []) = GameOver /\
  count_occ string_dec
    (cout (mkAceyDucey 0 GameOver CARDS
             (mkRng (samples (rng_of_list [0; 1; 5]%nat)) 3) []
             (banner ++
              [line "YOU NOW HAVE $100 DOLLARS";
               line "HERE ARE YOUR NEXT TWO CARDS:"; line "2 3";
               "WHAT IS YOUR BET "; line "7"; line "SORRY, YOU LOSE";
               line "SORRY, FRIEND, BUT YOU BLEW YOUR WAD.";
               "TRY AGAIN (YES OR NO)? "]) []))
    (line FAREWELL) = O.
Proof.
  apply (run_returns_without_farewell 2 (rng_of_list [0; 1; 5]%nat)
           ["100"; "no"]).
  vm_compute. reflexivity.
Defined.

(** ** Further properties: the rank table and the cards *)

Lemma find_distance_le (r : list string) (v : string) :
  (find_distance r v <= List.length r)%nat.
Proof.
  induction r as [|x r IH]; cbn; [lia|].
  destruct (String.eqb x v); lia.
Qed.

Lemma find_distance_In (r : list string) (v : string) :
  In v r <-> (find_distance r v < List.length r)%nat.
Proof.
  induction r as [|x r IH]; cbn; [lia|].
  destruct (String.eqb_spec x v) as [E|E].
  - split; [lia | auto].
  - rewrite <- Nat.succ_lt_mono, <- IH. split; [intros [H|H] | ]; tauto.
Qed.

Lemma find_distance_nth (r : list string) (v : string) :
  In v r -> nth_error r (find_distance r v) = Some v.
Proof.
  induction r as [|x r IH]; cbn; [tauto|].
  destruct (String.eqb_spec x v) as [E|E]; cbn.
  - intros _. congruence.
  - intros [H|H]; [congruence | auto].
Qed.

Lemma index_of_or_minus1_ordinal (c : string) (i : nat) :
  nth_error CARDS i = Some c -> index_of_or_minus1 c = Z.of_nat i.
Proof.
  intros H.
  do 13 (destruct i as [|i];
         [injection H as <-; reflexivity | simpl in H]).
  destruct i; discriminate H.
Qed.

(** X1 (index lambdas, a label of the table).  Both [index_of] lambdas
    give a label of the table its position, a number from 0 to 12 at
    which the table holds that label. *)
Theorem index_of_present (c : string) :
  In c CARDS ->
  0 <= index_of c < 13 /\
  index_of_or_minus1 c = index_of c /\
  nth_error CARDS (Z.to_nat (index_of c)) = Some c.
Proof.
  intros H.
  pose proof (find_distance_nth CARDS c H) as N.
  pose proof (proj1 (find_distance_In CARDS c) H) as L.
  unfold index_of. rewrite Nat2Z.id.
  rewrite (index_of_or_minus1_ordinal _ _ N).
  change (List.length CARDS) with 13%nat in L.
  repeat split; [lia | lia | exact N].
Qed.

Lemma index_of_present_witness :
  0 <= index_of "10" < 13 /\
  index_of_or_minus1 "10" = index_of "10" /\
  nth_error CARDS (Z.to_nat (index_of "10")) = Some "10".
Proof.
  apply (index_of_present "10"). cbn. tauto.
Defined.

(** X2 (index lambdas and [is_between], a label that is not of the
    table).  The lambda of [is_between] gives it 13, one past the ace;
    the lambda of [print_cards] gives it -1; and as the card to test it
    is never between two others. *)
Theorem index_of_absent (c : string) :
  ~ In c CARDS ->
  index_of c = 13 /\
  index_of_or_minus1 c = -1 /\
  forall a b, is_between a b c = false.
Proof.
  intros H.
  pose proof (find_distance_le CARDS c) as L.
  rewrite find_distance_In in H.
  change (List.length CARDS) with 13%nat in *.
  assert (E : find_distance CARDS c = 13%nat) by lia.
  assert (I : index_of c = 13) by (unfold index_of; rewrite E; reflexivity).
  split; [exact I|]. split.
  - unfold index_of_or_minus1. rewrite E. reflexivity.
  - intros a b. destruct (is_between a b c) eqn:B; [|reflexivity].
    apply is_between_spec in B. rewrite I in B.
    pose proof (find_distance_le CARDS a) as La.
    pose proof (find_distance_le CARDS b) as Lb.
    change (List.length CARDS) with 13%nat in *.
    unfold index_of in B. lia.
Qed.

Lemma index_of_absent_witness :
  index_of "1" = 13 /\
  index_of_or_minus1 "1" = -1 /\
  forall a b, is_between a b "1" = false.
Proof.
  apply (index_of_absent "1"). cbn. intuition discriminate.
Defined.

(** X3 ([is_between], neighbours).  Between two labels of the table that
    are the same or next to each other in rank there is nothing: the
    test fails for every card. *)
Theorem is_between_adjacent (a b : string) (i j : nat) :
  nth_error CARDS i = Some a ->
  nth_error CARDS j = Some b ->
  (i <= S j)%nat -> (j <= S i)%nat ->
  forall test, is_between a b test = false.
Proof.
  intros Ha Hb Hij Hji test.
  destruct (is_between a b test) eqn:B; [|reflexivity].
  apply is_between_spec in B.
  rewrite (index_of_ordinal _ _ Ha), (index_of_ordinal _ _ Hb) in B. lia.
Qed.

Lemma is_between_adjacent_witness :
  is_between "10" "J" "Q" = false.
Proof.
  apply (is_between_adjacent "10" "J" 8 9);
    [reflexivity | reflexivity | lia | lia].
Defined.

(** X4 ([is_between], how many cards win).  For two labels of the table
    at the positions [i] and [j], the labels of the table that lie
    between them are as many as the positions strictly between [i] and
    [j]. *)
Theorem is_between_count (a b : string) (i j : nat) :
  nth_error CARDS i = Some a ->
  nth_error CARDS j = Some b ->
  List.length (filter (is_between a b) CARDS) =
  (Nat.max i j - Nat.min i j - 1)%nat.
Proof.
  intros Ha Hb.
  assert (Hi : (i < List.length CARDS)%nat)
    by (apply nth_error_Some; rewrite Ha; discriminate).
  assert (Hj : (j < List.length CARDS)%nat)
    by (apply nth_error_Some; rewrite Hb; discriminate).
  change (List.length CARDS) with 13%nat in Hi, Hj.
  assert (All :
    forallb (fun i =>
      forallb (fun j =>
        (List.length (filter (is_between (nth i CARDS EmptyString)
                                         (nth j CARDS EmptyString)) CARDS)
         =? Nat.max i j - Nat.min i j - 1)%nat)
        (seq 0 13))
      (seq 0 13) = true) by (vm_compute; reflexivity).
  rewrite forallb_forall in All.
  specialize (All i ltac:(apply in_seq; lia)).
  rewrite forallb_forall in All.
  specialize (All j ltac:(apply in_seq; lia)).
  apply Nat.eqb_eq in All.
  rewrite (nth_error_nth _ _ EmptyString Ha) in All.
  rewrite (nth_error_nth _ _ EmptyString Hb) in All.
  exact All.
Qed.

Lemma is_between_count_witness :
  List.length (filter (is_between "K" "4") CARDS) =
  (Nat.max 11 2 - Nat.min 11 2 - 1)%nat.
Proof.
  apply (is_between_count "K" "4" 11 2); reflexivity.
Defined.

(** X5 ([deal_card]).  From a deck that is not empty, [deal_card] returns
    one of the labels of the deck, uses one number of the engine and
    changes nothing else: the deck is never used up. *)
Theorem deal_card_from_deck (g : AceyDucey) :
  deck g <> [] ->
  exists c,
    deal_card g = Returns c (with_rng (drawn 1 (rng g)) g) /\
    In c (deck g).
Proof.
  intros H. eexists. split; [reflexivity|].
  exec. apply nth_In.
  destruct (deck g) as [|x d]; [congruence|]. cbn [List.length].
  replace (S (List.length d) - 1 - 0 + 1)%nat with (S (List.length d)) by lia.
  pose proof (Nat.mod_upper_bound
                (samples (rng g) (cursor (rng g))) (S (List.length d))).
  lia.
Qed.

Lemma deal_card_from_deck_witness :
  exists c,
    deal_card (new_game (rng_of_list [25]%nat) []) =
    Returns c (with_rng (drawn 1 (rng_of_list [25]%nat))
                 (new_game (rng_of_list [25]%nat) [])) /\
    In c CARDS.
Proof.
  apply (deal_card_from_deck (new_game (rng_of_list [25]%nat) [])).
  discriminate.
Defined.

(** X6 ([print_cards], labels of the table).  For two labels of the
    table, [print_cards] writes one line to standard output, the lower
    rank first and the higher second, whichever order they were given
    in, and nothing to standard error. *)
Theorem print_cards_ascending (a b : string) (i j : nat) (g : AceyDucey) :
  nth_error CARDS i = Some a ->
  nth_error CARDS j = Some b ->
  print_cards a b g =
  Returns tt
    (with_cout
       (cout g ++
        [line (nth (Nat.min i j) CARDS EmptyString ++ " " ++
               nth (Nat.max i j) CARDS EmptyString)]) g).
Proof.
  intros Ha Hb.
  rewrite print_cards_returns. unfold cards_err, cards_out.
  rewrite (index_of_or_minus1_ordinal _ _ Ha),
    (index_of_or_minus1_ordinal _ _ Hb).
  destruct (Z.eqb_spec (Z.of_nat i) (-1)); [lia|].
  destruct (Z.eqb_spec (Z.of_nat j) (-1)); [lia|]. cbn [orb].
  rewrite Z.gtb_ltb.
  destruct (Z.ltb_spec (Z.of_nat j) (Z.of_nat i)) as [L|L].
  - rewrite Nat.min_r, Nat.max_l by lia.
    rewrite (nth_error_nth _ _ EmptyString Ha),
      (nth_error_nth _ _ EmptyString Hb).
    f_equal. apply object_eq; exec; rewrite ?app_nil_r; reflexivity.
  - rewrite Nat.min_l, Nat.max_r by lia.
    rewrite (nth_error_nth _ _ EmptyString Ha),
      (nth_error_nth _ _ EmptyString Hb).
    f_equal. apply object_eq; exec; rewrite ?app_nil_r; reflexivity.
Qed.

Lemma print_cards_ascending_witness :
  print_cards "K" "10" (new_game (rng_of_list []) []) =
  Returns tt
    (with_cout
       (cout (new_game (rng_of_list []) []) ++
        [line (nth (Nat.min 11 8) CARDS EmptyString ++ " " ++
               nth (Nat.max 11 8) CARDS EmptyString)])
       (new_game (rng_of_list []) [])).
Proof.
  apply (print_cards_ascending "K" "10" 11 8); reflexivity.
Defined.

(** X7 ([print_cards], a label that is not of the table).  When one of
    the two labels is not of the table, [print_cards] writes nothing to
    standard output, and one line of error to standard error. *)
Theorem print_cards_unknown (a b : string) (g : AceyDucey) :
  ~ In a CARDS \/ ~ In b CARDS ->
  print_cards a b g =
  Returns tt
    (with_cerr (cerr g ++ [line "Error: Invalid card rank(s)."]) g).
Proof.
  intros H.
  assert (E : (index_of_or_minus1 a =? -1) || (index_of_or_minus1 b =? -1)
              = true).
  { apply orb_true_iff.
    destruct H as [H|H]; [left | right]; apply Z.eqb_eq;
      unfold index_of_or_minus1;
      pose proof (find_distance_le CARDS a);
      pose proof (find_distance_le CARDS b);
      rewrite find_distance_In in H;
      match goal with
      | |- context [(?d =? ?n)%nat] =>
          destruct (Nat.eqb_spec d n); [reflexivity | lia]
      end. }
  rewrite print_cards_returns. unfold cards_err, cards_out. rewrite E.
  f_equal. apply object_eq; exec; rewrite ?app_nil_r; reflexivity.
Qed.

Lemma print_cards_unknown_witness :
  print_cards "5" "joker" (new_game (rng_of_list []) []) =
  Returns tt
    (with_cerr
       (cerr (new_game (rng_of_list []) []) ++
        [line "Error: Invalid card rank(s)."])
       (new_game (rng_of_list []) [])).
Proof.
  apply (print_cards_unknown "5" "joker"). right. cbn.
  intuition discriminate.
Defined.

(** ** Further properties: the line reader *)

Lemma toupper_char (c : ascii) :
  isspace (toupper c) = isspace c /\
  islower (toupper c) = false /\
  toupper (toupper c) = toupper c /\
  (isdigit c = true -> toupper c = c).
Proof.
  destruct c as [[] [] [] [] [] [] [] []]; repeat split;
    try reflexivity; intros H; discriminate H.
Qed.

Lemma erase_leading_spaces (w s : string) :
  all_of isspace w = true ->
  erase_leading isspace (w ++ s) = erase_leading isspace s.
Proof.
  induction w as [|c w IH]; cbn; [reflexivity|].
  destruct (isspace c); cbn; [exact IH | discriminate].
Qed.

Lemma erase_trailing_all_spaces (w : string) :
  all_of isspace w = true -> erase_trailing isspace w = EmptyString.
Proof.
  induction w as [|c w IH]; cbn; [reflexivity|].
  destruct (isspace c); cbn; [|discriminate].
  intros H. rewrite (IH H). reflexivity.
Qed.

Lemma erase_trailing_spaces (s w : string) :
  all_of isspace w = true ->
  erase_trailing isspace (s ++ w) = erase_trailing isspace s.
Proof.
  intros H. induction s as [|c s IH]; cbn.
  - apply erase_trailing_all_spaces, H.
  - rewrite IH. reflexivity.
Qed.

Lemma erase_leading_all_spaces (w : string) :
  all_of isspace w = true -> erase_leading isspace w = EmptyString.
Proof.
  induction w as [|c w IH]; cbn; [reflexivity|].
  destruct (isspace c); cbn; [exact IH | discriminate].
Qed.

Lemma erase_both_spaces (s w : string) :
  all_of isspace w = true ->
  erase_trailing isspace (erase_leading isspace (s ++ w)) =
  erase_trailing isspace (erase_leading isspace s).
Proof.
  intros H. induction s as [|c s IH]; cbn [append erase_leading].
  - rewrite (erase_leading_all_spaces w H). reflexivity.
  - destruct (isspace c); [exact IH|].
    change (String c (s ++ w)) with (String c s ++ w).
    apply erase_trailing_spaces, H.
Qed.

Lemma sanitize_blanks (w1 w2 s : string) :
  all_of isspace w1 = true ->
  all_of isspace w2 = true ->
  sanitize (w1 ++ s ++ w2) = sanitize s.
Proof.
  intros H1 H2. unfold sanitize.
  rewrite (erase_leading_spaces w1 _ H1), (erase_both_spaces s w2 H2).
  reflexivity.
Qed.

Lemma erase_trailing_no_space (s : string) :
  all_of (fun c => negb (isspace c)) s = true ->
  erase_trailing isspace s = s.
Proof.
  induction s as [|c s IH]; cbn; [reflexivity|].
  destruct (isspace c); cbn; [discriminate|].
  intros H. rewrite (IH H), andb_false_r. reflexivity.
Qed.

Lemma sanitize_digits (d : string) :
  all_of isdigit d = true -> sanitize d = d.
Proof.
  intros H. unfold sanitize.
  assert (N : all_of (fun c => negb (isspace c)) d = true).
  { induction d as [|c d IH]; cbn in *; [reflexivity|].
    apply andb_true_iff in H as [Hc Hd].
    destruct (isdigit_char c Hc) as (-> & _). cbn. exact (IH Hd). }
  assert (L : erase_leading isspace d = d).
  { destruct d as [|c d]; cbn in *; [reflexivity|].
    destruct (isspace c); [discriminate N | reflexivity]. }
  rewrite L, (erase_trailing_no_space d N).
  induction d as [|c d IH]; cbn in *; [reflexivity|].
  apply andb_true_iff in H as [Hc Hd].
  destruct (toupper_char c) as (_ & _ & _ & U). rewrite (U Hc).
  apply andb_true_iff in N as [_ Nd].
  rewrite IH; [reflexivity | exact Hd | exact Nd |].
  destruct d as [|c' d]; cbn in *; [reflexivity|].
  destruct (isspace c'); [discriminate Nd | reflexivity].
Qed.

(** X8 ([get_input_line], blanks around a bet).  A line that is a run of
    decimal digits with white space before and after it is read as the
    digits alone; the line is taken off the input and nothing else
    changes. *)
Theorem get_input_line_digits
    (w1 d w2 : string) (rest : list string) (g : AceyDucey) :
  cin g = (w1 ++ d ++ w2) :: rest ->
  all_of isspace w1 = true ->
  all_of isdigit d = true ->
  all_of isspace w2 = true ->
  get_input_line g = Returns d (with_cin rest g).
Proof.
  intros C H1 Hd H2. exec. rewrite C. cbn [hd tl].
  rewrite (sanitize_blanks w1 w2 d H1 H2), (sanitize_digits d Hd).
  reflexivity.
Qed.

Lemma get_input_line_digits_witness :
  get_input_line (new_game (rng_of_list []) ["  50 "; "yes"]) =
  Returns "50" (with_cin ["yes"] (new_game (rng_of_list []) ["  50 "; "yes"])).
Proof.
  apply (get_input_line_digits "  " "50" " " ["yes"]); reflexivity.
Defined.

Lemma erase_leading_head (s : string) (c : ascii) (r : string) :
  erase_leading isspace s = String c r -> isspace c = false.
Proof.
  induction s as [|a s IH]; cbn; [discriminate|].
  destruct (isspace a) eqn:E; [exact IH|].
  intros [= <- _]. exact E.
Qed.

Lemma erase_trailing_head (s : string) (c : ascii) (r : string) :
  erase_trailing isspace s = String c r -> exists r0, s = String c r0.
Proof.
  destruct s as [|a s]; cbn; [discriminate|].
  destruct (_ && _); [discriminate|].
  intros [= <- _]. eauto.
Qed.

Lemma erase_trailing_last (s front : string) (c : ascii) :
  erase_trailing isspace s = front ++ String c EmptyString ->
  isspace c = false.
Proof.
  revert front. induction s as [|a s IH]; intros front; cbn.
  - destruct front; discriminate.
  - destruct (erase_trailing isspace s) as [|b t] eqn:T; cbn.
    + destruct (isspace a) eqn:E; [destruct front; discriminate|].
      destruct front as [|f front]; cbn.
      * intros [= <-]. exact E.
      * intros [= _ H]. destruct front; discriminate H.
    + destruct front as [|f front]; cbn; [discriminate|].
      intros [= _ H]. exact (IH front H).
Qed.

Lemma transform_head (f : ascii -> ascii) (s : string) (c : ascii) (r : string) :
  transform f s = String c r -> exists c0 r0, s = String c0 r0 /\ c = f c0.
Proof.
  destruct s as [|a s]; cbn; [discriminate|].
  intros [= <- _]. eauto.
Qed.

Lemma transform_last (f : ascii -> ascii) (s front : string) (c : ascii) :
  transform f s = front ++ String c EmptyString ->
  exists front0 c0, s = front0 ++ String c0 EmptyString /\ c = f c0.
Proof.
  revert front. induction s as [|a s IH]; intros front; cbn.
  - destruct front; discriminate.
  - destruct front as [|b front]; cbn.
    + intros [= <- H]. destruct s; [|discriminate H].
      exists EmptyString, a. split; reflexivity.
    + intros [= _ H]. destruct (IH front H) as (front0 & c0 & -> & ->).
      exists (String a front0), c0. split; reflexivity.
Qed.

Lemma erase_leading_fix (t : string) :
  (forall c r, t = String c r -> isspace c = false) ->
  erase_leading isspace t = t.
Proof.
  destruct t as [|a t]; cbn; [reflexivity|].
  intros H. rewrite (H a t eq_refl). reflexivity.
Qed.

Lemma erase_trailing_fix (t : string) :
  (forall front c, t = front ++ String c EmptyString -> isspace c = false) ->
  erase_trailing isspace t = t.
Proof.
  induction t as [|a t IH]; cbn; [reflexivity|].
  intros H. rewrite IH.
  - destruct t as [|b t]; cbn; [|reflexivity].
    rewrite (H EmptyString a eq_refl). reflexivity.
  - intros front c E. apply (H (String a front) c). cbn. rewrite E.
    reflexivity.
Qed.

Lemma transform_toupper_fix (u : string) :
  transform toupper (transform toupper u) = transform toupper u /\
  all_of (fun c => negb (islower c)) (transform toupper u) = true.
Proof.
  induction u as [|a u [IH1 IH2]]; cbn; [split; reflexivity|].
  destruct (toupper_char a) as (_ & L & I & _).
  rewrite I, IH1, L, IH2. split; reflexivity.
Qed.

Lemma sanitize_head (s : string) (c : ascii) (r : string) :
  sanitize s = String c r -> isspace c = false.
Proof.
  unfold sanitize. intros H.
  destruct (transform_head _ _ _ _ H) as (c0 & r0 & E & ->).
  destruct (erase_trailing_head _ _ _ E) as (r1 & E1).
  destruct (toupper_char c0) as (-> & _).
  exact (erase_leading_head _ _ _ E1).
Qed.

Lemma sanitize_last (s front : string) (c : ascii) :
  sanitize s = front ++ String c EmptyString -> isspace c = false.
Proof.
  unfold sanitize. intros H.
  destruct (transform_last _ _ _ _ H) as (front0 & c0 & E & ->).
  destruct (toupper_char c0) as (-> & _).
  exact (erase_trailing_last _ _ _ E).
Qed.

(** X9 ([get_input_line], what it hands back).  The string made of a line
    neither begins nor ends with white space and has no lower case
    letter; reading it again would change nothing. *)
Theorem sanitize_normal_form (s : string) :
  (forall c r, sanitize s = String c r -> isspace c = false) /\
  (forall front c,
     sanitize s = front ++ String c EmptyString -> isspace c = false) /\
  all_of (fun c => negb (islower c)) (sanitize s) = true /\
  sanitize (sanitize s) = sanitize s.
Proof.
  split; [exact (sanitize_head s)|]. split; [exact (sanitize_last s)|].
  split; [apply transform_toupper_fix|].
  unfold sanitize at 1.
  rewrite (erase_leading_fix _ (sanitize_head s)).
  rewrite (erase_trailing_fix _ (sanitize_last s)).
  apply transform_toupper_fix.
Qed.

Lemma sanitize_normal_form_witness :
  (forall c r, sanitize "  Yes please " = String c r -> isspace c = false) /\
  (forall front c,
     sanitize "  Yes please " = front ++ String c EmptyString ->
     isspace c = false) /\
  all_of (fun c => negb (islower c)) (sanitize "  Yes please ") = true /\
  sanitize (sanitize "  Yes please ") = sanitize "  Yes please ".
Proof.
  apply (sanitize_normal_form "  Yes please ").
Defined.

(** ** Further properties: the bet parser *)

(** X10 ([get_positive_integer], every string).  What comes back is -1
    for a string that is not a run of digits, and for a run of digits the
    number it writes, which is then between 0 and [INT_MAX]; the only
    exception that leaves the function is [out_of_range], and it does
    for the runs of digits that write more than [INT_MAX]. *)
Theorem get_positive_integer_result (s : string) :
  match get_positive_integer s with
  | Value v =>
      (all_digits s = false /\ v = -1) \/
      (all_digits s = true /\ v = digits_value 0 s /\ 0 <= v <= INT_MAX)
  | Raised e =>
      e = out_of_range /\ all_digits s = true /\ INT_MAX < digits_value 0 s
  end.
Proof.
  rewrite get_positive_integer_cases.
  destruct (all_digits s) eqn:D; [|left; split; reflexivity].
  pose proof D as D'. unfold all_digits in D'.
  apply andb_true_iff in D' as [_ Hd].
  pose proof (digits_value_lower s 0 Hd ltac:(lia)) as L.
  destruct (Z.leb_spec (digits_value 0 s) INT_MAX) as [U|U].
  - right. repeat split; assumption.
  - repeat split. exact U.
Qed.

(** X11 ([get_positive_integer], zeros in front).  A zero put in front of
    a run of digits changes nothing of what the parser does with it. *)
Theorem get_positive_integer_leading_zero (d : string) :
  all_digits d = true ->
  get_positive_integer (String "0" d) = get_positive_integer d.
Proof.
  intros D. rewrite !get_positive_integer_cases, D.
  unfold all_digits in *. apply andb_true_iff in D as [_ Hd].
  cbn [empty negb all_of andb]. rewrite Hd.
  change (isdigit "0") with true. cbn [andb].
  change (digits_value 0 (String "0" d)) with (digits_value 0 d).
  reflexivity.
Qed.

Lemma get_positive_integer_leading_zero_witness :
  get_positive_integer (String "0" "07") = get_positive_integer "07".
Proof.
  apply (get_positive_integer_leading_zero "07"). reflexivity.
Defined.

(** ** Further properties: one round *)

Lemma take_bet_returns (a b : string) (bet : Z) (g : AceyDucey) :
  exists g', take_bet a b bet g = Returns tt g'.
Proof.
  unfold take_bet, broke. exec.
  repeat branch; exec; eexists; reflexivity.
Qed.

Lemma play_turn_throw_inv (g g' : AceyDucey) (e : exception) :
  play_turn g = Throws e g' ->
  e = out_of_range /\ g' = asked g /\
  all_digits (bet_line g) = true /\ INT_MAX < digits_value 0 (bet_line g).
Proof.
  rewrite play_turn_prologue. unfold bind, call.
  rewrite get_positive_integer_cases.
  destruct (all_digits (bet_line g)) eqn:D.
  - destruct (Z.leb_spec (digits_value 0 (bet_line g)) INT_MAX) as [U|U].
    + destruct (take_bet_returns (first_pick g) (second_pick g)
                  (digits_value 0 (bet_line g)) (asked g)) as [h ->].
      discriminate.
    + intros [= <- <-]. repeat split. exact U.
  - destruct (take_bet_returns (first_pick g) (second_pick g) (-1) (asked g))
      as [h ->].
    discriminate.
Qed.

(** X12 ([play_turn], the one way it fails).  An exception leaves
    [play_turn] exactly when the answer to the bet prompt is a run of
    digits that writes more than [INT_MAX]; it is [out_of_range], and it
    leaves after the two cards and the prompt, with the line read and
    the balance and the state untouched. *)
Theorem play_turn_throws (g g' : AceyDucey) (e : exception) :
  play_turn g = Throws e g' <->
  e = out_of_range /\ g' = asked g /\
  all_digits (bet_line g) = true /\ INT_MAX < digits_value 0 (bet_line g).
Proof.
  split; [apply play_turn_throw_inv|].
  intros (-> & -> & D & U).
  rewrite play_turn_prologue. unfold bind, call.
  rewrite get_positive_integer_cases, D.
  destruct (Z.leb_spec (digits_value 0 (bet_line g)) INT_MAX); [lia|].
  reflexivity.
Qed.

Lemma play_turn_throws_witness :
  play_turn (mkAceyDucey 100 Playing CARDS (rng_of_list [0; 1]%nat)
               ["99999999999"] [] []) =
  Throws out_of_range
    (asked (mkAceyDucey 100 Playing CARDS (rng_of_list [0; 1]%nat)
              ["99999999999"] [] [])).
Proof.
  apply (play_turn_throws
           (mkAceyDucey 100 Playing CARDS (rng_of_list [0; 1]%nat)
              ["99999999999"] [] [])).
  repeat split.
Defined.

Lemma take_bet_frame (a b : string) (bet : Z) (g g' : AceyDucey) :
  take_bet a b bet g = Returns tt g' ->
  deck g' = deck g /\ cerr g' = cerr g /\
  ((rng g' = rng g /\ cin g' = cin g) \/
   (rng g' = drawn 1 (rng g) /\ (cin g' = cin g \/ cin g' = tl (cin g)))) /\
  exists out, cout g' = (cout g ++ out)%list.
Proof.
  unfold take_bet, broke. exec.
  repeat branch; exec; intros [= <-]; exec;
    (split; [reflexivity|]); (split; [reflexivity|]);
    (split; [auto|]); eexists; rewrite <- ?app_assoc; reflexivity.
Qed.

(** X13 ([play_turn], what a round uses and leaves).  A round that
    returns has dealt two cards or three, has read one line, or two when
    it dealt three; it has not touched the deck, and it has only added
    to the output, beginning with the lines that show the cards and ask
    for the bet. *)
Theorem play_turn_frame (g g' : AceyDucey) :
  play_turn g = Returns tt g' ->
  deck g' = deck g /\
  ((rng g' = drawn 2 (rng g) /\ cin g' = tl (cin g)) \/
   (rng g' = drawn 3 (rng g) /\
    (cin g' = tl (cin g) \/ cin g' = tl (tl (cin g))))) /\
  exists out, cout g' = (cout g ++ opening g ++ out)%list.
Proof.
  rewrite play_turn_prologue. unfold bind, call.
  destruct (get_positive_integer (bet_line g)) as [bet|]; [|discriminate].
  intros E. apply take_bet_frame in E as (D & _ & R & out & O).
  split; [exact D|]. split.
  - exec. destruct R as [[-> ->] | [-> C]]; [left | right]; auto.
  - exists out. rewrite O. exec. rewrite <- app_assoc. reflexivity.
Qed.

Lemma play_turn_frame_witness :
  deck (object_of (play_turn
          (mkAceyDucey 100 Playing CARDS (rng_of_list [0; 1; 5]%nat)
             ["100"; "no"] [] []))) = CARDS /\
  ((rng (object_of (play_turn
           (mkAceyDucey 100 Playing CARDS (rng_of_list [0; 1; 5]%nat)
              ["100"; "no"] [] []))) =
    drawn 2 (rng_of_list [0; 1; 5]%nat) /\
    cin (object_of (play_turn
           (mkAceyDucey 100 Playing CARDS (rng_of_list [0; 1; 5]%nat)
              ["100"; "no"] [] []))) = tl ["100"; "no"]) \/
   (rng (object_of (play_turn
           (mkAceyDucey 100 Playing CARDS (rng_of_list [0; 1; 5]%nat)
              ["100"; "no"] [] []))) =
    drawn 3 (rng_of_list [0; 1; 5]%nat) /\
    (cin (object_of (play_turn
            (mkAceyDucey 100 Playing CARDS (rng_of_list [0; 1; 5]%nat)
               ["100"; "no"] [] []))) = tl ["100"; "no"] \/
     cin (object_of (play_turn
            (mkAceyDucey 100 Playing CARDS (rng_of_list [0; 1; 5]%nat)
               ["100"; "no"] [] []))) = tl (tl ["100"; "no"])))) /\
  exists out,
    cout (object_of (play_turn
            (mkAceyDucey 100 Playing CARDS (rng_of_list [0; 1; 5]%nat)
               ["100"; "no"] [] []))) =
    ([] ++
     opening (mkAceyDucey 100 Playing CARDS (rng_of_list [0; 1; 5]%nat)
                ["100"; "no"] [] []) ++ out)%list.
Proof.
  apply (play_turn_frame
           (mkAceyDucey 100 Playing CARDS (rng_of_list [0; 1; 5]%nat)
              ["100"; "no"] [] [])).
  vm_compute. reflexivity.
Defined.

Lemma take_bet_balance (a b : string) (bet : Z) (g g' : AceyDucey) :
  0 < balance g ->
  2 * balance g <= INT_MAX ->
  take_bet a b bet g = Returns tt g' ->
  balance g' = 100 \/ 0 <= balance g' <= 2 * balance g.
Proof.
  intros Hpos Hfit.
  destruct (Z.leb_spec bet 0) as [L|L].
  { rewrite take_bet_chicken by exact L. intros [= <-]. exec. lia. }
  destruct (Z.ltb_spec (balance g) bet) as [M|M].
  { rewrite take_bet_too_much by lia. intros [= <-]. exec. lia. }
  destruct (is_between a b (value_of EmptyString (deal_card g))) eqn:B.
  - rewrite (take_bet_win _ _ _ g (conj L M) B). intros [= <-]. exec.
    rewrite wrap_int_fits by (unfold fits_int, INT_MIN, INT_MAX in *; lia).
    lia.
  - rewrite (take_bet_loss _ _ _ g (conj L M) B). intros [= <-]. exec.
    rewrite wrap_int_fits by (unfold fits_int, INT_MIN, INT_MAX in *; lia).
    repeat branch; exec; lia.
Qed.

(** X14 ([play_turn], how far the balance moves).  A round that begins
    with a positive balance whose double is an [int] ends with the
    balance 100, or with a balance from 0 to twice the old one: a bet
    never takes more than there is, and never gives more than it. *)
Theorem play_turn_balance_bounds (g g' : AceyDucey) :
  0 < balance g ->
  2 * balance g <= INT_MAX ->
  play_turn g = Returns tt g' ->
  balance g' = 100 \/ 0 <= balance g' <= 2 * balance g.
Proof.
  intros Hpos Hfit. rewrite play_turn_prologue. unfold bind, call.
  destruct (get_positive_integer (bet_line g)) as [bet|]; [|discriminate].
  exact (take_bet_balance _ _ bet (asked g) g' Hpos Hfit).
Qed.

Lemma play_turn_balance_bounds_witness :
  balance (object_of (play_turn
             (mkAceyDucey 100 Playing CARDS (rng_of_list [2; 11; 7]%nat)
                ["100"] [] []))) = 100 \/
  0 <= balance (object_of (play_turn
                  (mkAceyDucey 100 Playing CARDS (rng_of_list [2; 11; 7]%nat)
                     ["100"] [] []))) <= 2 * 100.
Proof.
  apply (play_turn_balance_bounds
           (mkAceyDucey 100 Playing CARDS (rng_of_list [2; 11; 7]%nat)
              ["100"] [] [])).
  - cbn. lia.
  - unfold INT_MAX. cbn. lia.
  - vm_compute. reflexivity.
Defined.

(** ** Further properties: the whole game *)

Lemma wrap_int_range (z : Z) : fits_int (wrap_int z).
Proof.
  unfold fits_int, wrap_int, INT_MIN, INT_MAX.
  pose proof (Z.mod_pos_bound (z - -2147483648) (2 ^ 32) ltac:(lia)). lia.
Qed.

Lemma take_bet_fits (a b : string) (bet : Z) (g g' : AceyDucey) :
  take_bet a b bet g = Returns tt g' ->
  fits_int (balance g) -> fits_int (balance g').
Proof.
  unfold take_bet, broke. exec.
  repeat branch; exec; intros [= <-] F; exec;
    first [exact F | apply wrap_int_range
          | unfold fits_int, INT_MIN, INT_MAX; lia].
Qed.

Lemma index_of_or_minus1_table (c : string) :
  In c CARDS -> (index_of_or_minus1 c =? -1) = false.
Proof.
  intros H. apply find_distance_nth in H.
  rewrite (index_of_or_minus1_ordinal _ _ H). apply Z.eqb_neq. lia.
Qed.

Lemma picks_of_table (g : AceyDucey) :
  deck g = CARDS -> cards_err (first_pick g) (second_pick g) = [].
Proof.
  intros D.
  assert (P : forall n, In (nth (0 + n mod (List.length CARDS - 1 - 0 + 1))
                              CARDS EmptyString) CARDS).
  { intros n. apply nth_In. change (List.length CARDS) with 13%nat.
    pose proof (Nat.mod_upper_bound n 13). cbn in *. lia. }
  unfold cards_err, first_pick, second_pick. exec. rewrite D.
  rewrite !index_of_or_minus1_table by apply P.
  reflexivity.
Qed.

Lemma play_turn_keeps (g g' : AceyDucey) :
  play_turn g = Returns tt g' ->
  deck g = CARDS -> cerr g = [] -> fits_int (balance g) ->
  deck g' = CARDS /\ cerr g' = [] /\ fits_int (balance g') /\
  (state g' = Playing \/ state g' = BetNothing) /\
  exists out, cout g' = (cout g ++ out)%list.
Proof.
  rewrite play_turn_prologue. unfold bind, call.
  destruct (get_positive_integer (bet_line g)) as [bet|]; [|discriminate].
  intros E D C F.
  destruct (take_bet_frame _ _ _ _ _ E) as (D' & C' & _ & out & O).
  split; [rewrite D'; exact D|].
  split; [rewrite C'; unfold asked; cbn [cerr];
          rewrite C, (picks_of_table g D); reflexivity|].
  split; [exact (take_bet_fits _ _ _ _ _ E F)|].
  split; [exact (take_bet_state _ _ _ _ _ E)|].
  exists (opening g ++ out)%list. rewrite O. exec.
  rewrite <- app_assoc. reflexivity.
Qed.

Lemma loop_invariants (r : Rng) (input : list string) (g : AceyDucey) :
  loop_reaches (new_game r input) g ->
  deck g = CARDS /\ cerr g = [] /\ fits_int (balance g) /\
  (state g = GameOver -> balance g <= 0) /\
  ((state g = Initialising /\ g = new_game r input) \/
   (state g <> Initialising /\ exists out, cout g = (banner ++ out)%list)).
Proof.
  induction 1 as [|g g' Hreach (D & C & F & _ & B) Hs E].
  - repeat split; [unfold INT_MIN; cbn; lia | unfold INT_MAX; cbn; lia
                  | discriminate | left; split; reflexivity].
  - destruct (state g) eqn:S; [| | |congruence].
    + rewrite (run_body_initialising _ S) in E. injection E as <-. exec.
      repeat split; try assumption; try apply F; [discriminate|].
      right. split; [discriminate|].
      destruct B as [[_ ->] | [N _]]; [|congruence].
      exists []. rewrite app_nil_r. reflexivity.
    + rewrite run_body_round in E by auto.
      destruct (play_turn g) as [[] g1 | e g1] eqn:P; [|discriminate E].
      injection E as <-.
      destruct (play_turn_keeps g g1 P D C F) as (D1 & C1 & F1 & S1 & out & O).
      assert (B1 : exists out', cout g1 = (banner ++ out')%list).
      { destruct B as [[N _] | [_ [o Ho]]]; [congruence|].
        exists (o ++ out)%list. rewrite O, Ho, app_assoc. reflexivity. }
      destruct (Z.leb_spec (balance g1) 0) as [L|L]; exec;
        repeat split; try assumption; try apply F1;
        try (intros G; destruct S1; congruence);
        right; (split; [destruct S1; congruence | exact B1]).
    + rewrite run_body_round in E by auto.
      destruct (play_turn g) as [[] g1 | e g1] eqn:P; [|discriminate E].
      injection E as <-.
      destruct (play_turn_keeps g g1 P D C F) as (D1 & C1 & F1 & S1 & out & O).
      assert (B1 : exists out', cout g1 = (banner ++ out')%list).
      { destruct B as [[N _] | [_ [o Ho]]]; [congruence|].
        exists (o ++ out)%list. rewrite O, Ho, app_assoc. reflexivity. }
      destruct (Z.leb_spec (balance g1) 0) as [L|L]; exec;
        repeat split; try assumption; try apply F1;
        try (intros G; destruct S1; congruence);
        right; (split; [destruct S1; congruence | exact B1]).
Qed.

(** X15 ([run], what holds all along).  In every object the loop of
    [run] reaches from a newly constructed one: the deck is the rank
    table, nothing has been written to standard error, the balance is an
    [int], the state is [GameOver] exactly when the balance is 0 or
    below, and unless the loop is still at its start the state is not
    [Initialising] again and the output begins with the banner. *)
Theorem run_invariants (r : Rng) (input : list string) (g : AceyDucey) :
  loop_reaches (new_game r input) g ->
  deck g = CARDS /\ cerr g = [] /\ fits_int (balance g) /\
  (state g = GameOver <-> balance g <= 0) /\
  ((state g = Initialising /\ g = new_game r input) \/
   (state g <> Initialising /\ exists out, cout g = (banner ++ out)%list)).
Proof.
  intros H.
  destruct (loop_invariants r input g H) as (D & C & F & G & B).
  repeat split; try assumption; try apply F.
  intros L. destruct (state g) eqn:S; try reflexivity;
    pose proof (loop_keeps_money r input g H) as M;
    rewrite S in M; specialize (M ltac:(discriminate)); lia.
Qed.

Lemma run_invariants_witness :
  deck (object_of (run_body (new_game (rng_of_list [1]%nat) ["7"]))) = CARDS /\
  cerr (object_of (run_body (new_game (rng_of_list [1]%nat) ["7"]))) = [] /\
  fits_int
    (balance (object_of (run_body (new_game (rng_of_list [1]%nat) ["7"])))) /\
  (state (object_of (run_body (new_game (rng_of_list [1]%nat) ["7"]))) =
   GameOver <->
   balance (object_of (run_body (new_game (rng_of_list [1]%nat) ["7"]))) <= 0) /\
  ((state (object_of (run_body (new_game (rng_of_list [1]%nat) ["7"]))) =
    Initialising /\
    object_of (run_body (new_game (rng_of_list [1]%nat) ["7"])) =
    new_game (rng_of_list [1]%nat) ["7"]) \/
   (state (object_of (run_body (new_game (rng_of_list [1]%nat) ["7"]))) <>
    Initialising /\
    exists out,
      cout (object_of (run_body (new_game (rng_of_list [1]%nat) ["7"]))) =
      (banner ++ out)%list)).
Proof.
  apply (run_invariants (rng_of_list [1]%nat) ["7"]).
  apply (reaches_pass _ (new_game (rng_of_list [1]%nat) ["7"]));
    [apply reaches_start | discriminate | reflexivity].
Defined.

Lemma declines_declined (raw : string) :
  declines raw = true ->
  all_digits (sanitize raw) = false \/
  (all_digits (sanitize raw) = true /\ digits_value 0 (sanitize raw) <= 0).
Proof.
  unfold declines. intros H. apply orb_true_iff in H as [H|H].
  - left. apply negb_true_iff, H.
  - destruct (all_digits (sanitize raw)); [right | left; reflexivity].
    split; [reflexivity | apply Z.leb_le, H].
Qed.

Lemma run_declined (fuel : nat) (g : AceyDucey) :
  state g <> GameOver ->
  0 < balance g ->
  forallb declines (cin g) = true ->
  run fuel g = None.
Proof.
  revert g. induction fuel as [|fuel IH]; intros g Hs Hb Hd; cbn [run];
    (destruct (State_eqb (state g) GameOver) eqn:S;
     [apply State_eqb_eq in S; congruence|]); [reflexivity|].
  destruct (state g) eqn:St; [| | |congruence].
  - rewrite (run_body_initialising _ St).
    apply IH; exec; [discriminate | exact Hb | exact Hd].
  - assert (D : exists bet,
               get_positive_integer (bet_line g) = Value bet /\ bet <= 0).
    { apply get_positive_integer_declined. exec.
      destruct (cin g) as [|raw rest]; [left; reflexivity|].
      cbn [forallb] in Hd. apply andb_true_iff in Hd as [Hd _].
      exact (declines_declined raw Hd). }
    destruct D as (bet & P & L).
    rewrite run_body_round by auto.
    rewrite (play_turn_parsed _ _ P), (take_bet_chicken _ _ _ _ L). exec.
    destruct (Z.leb_spec (balance g) 0); [lia|].
    apply IH; exec; [discriminate | exact Hb|].
    destruct (cin g) as [|raw rest]; [reflexivity|].
    cbn [forallb tl] in *. apply andb_true_iff in Hd as [_ Hd]. exact Hd.
  - assert (D : exists bet,
               get_positive_integer (bet_line g) = Value bet /\ bet <= 0).
    { apply get_positive_integer_declined. exec.
      destruct (cin g) as [|raw rest]; [left; reflexivity|].
      cbn [forallb] in Hd. apply andb_true_iff in Hd as [Hd _].
      exact (declines_declined raw Hd). }
    destruct D as (bet & P & L).
    rewrite run_body_round by auto.
    rewrite (play_turn_parsed _ _ P), (take_bet_chicken _ _ _ _ L). exec.
    destruct (Z.leb_spec (balance g) 0); [lia|].
    apply IH; exec; [discriminate | exact Hb|].
    destruct (cin g) as [|raw rest]; [reflexivity|].
    cbn [forallb tl] in *. apply andb_true_iff in Hd as [_ Hd]. exact Hd.
Qed.

(** X16 ([main], input without a bet).  When no line of the input is a
    bet (each is empty, or not a number, or 0), and so also when there is
    no input at all, the program never leaves the loop of [run]: after
    the last line every round reads the empty string, takes it for no
    bet and begins the next round. *)
Theorem main_never_returns_without_bets
    (fuel : nat) (r : Rng) (input : list string) :
  forallb declines input = true ->
  main fuel r input = None.
Proof.
  intros H. unfold main. apply run_declined; [discriminate | cbn; lia | exact H].
Qed.

Lemma main_never_returns_without_bets_witness :
  main 50 (rng_of_list [4; 8]%nat) ["no"; ""; "0"; "-5"; "ten"] = None.
Proof.
  apply (main_never_returns_without_bets 50 (rng_of_list [4; 8]%nat)
           ["no"; ""; "0"; "-5"; "ten"]).
  reflexivity.
Defined.

(** X17 ([main], when it returns).  When the program returns from [run]
    the state is [GameOver], the balance is 0 or below, nothing was
    written to standard error, and the output begins with the banner. *)
Theorem main_returns_broke
    (fuel : nat) (r : Rng) (input : list string) (g' : AceyDucey) :
  main fuel r input = Some (Returns tt g') ->
  state g' = GameOver /\ balance g' <= 0 /\ cerr g' = [] /\
  exists out, cout g' = (banner ++ out)%list.
Proof.
  unfold main. intros E.
  destruct (run_reaches fuel _ _ _ (reaches_start _) E) as [H S].
  destruct (loop_invariants r input g' H) as (_ & C & _ & G & B).
  repeat split; [exact S | exact (G S) | exact C|].
  destruct B as [[N _] | [_ B]]; [congruence | exact B].
Qed.

Lemma main_returns_broke_witness :
  state (mkAceyDucey 0 GameOver CARDS
           (mkRng (samples (rng_of_list [0; 1; 5]%nat)) 3) []
           (banner ++
            [line "YOU NOW HAVE $100 DOLLARS";
             line "HERE ARE YOUR NEXT TWO CARDS:"; line "2 3";
             "WHAT IS YOUR BET "; line "7"; line "SORRY, YOU LOSE";
             line "SORRY, FRIEND, BUT YOU BLEW YOUR WAD.";
             "TRY AGAIN (YES OR NO)? "]) []) = GameOver /\
  0 <= 0 /\ @nil string = [] /\
  exists out,
    (banner ++
     [line "YOU NOW HAVE $100 DOLLARS";
      line "HERE ARE YOUR NEXT TWO CARDS:"; line "2 3";
      "WHAT IS YOUR BET "; line "7"; line "SORRY, YOU LOSE";
      line "SORRY, FRIEND, BUT YOU BLEW YOUR WAD.";
      "TRY AGAIN (YES OR NO)? "])%list = (banner ++ out)%list.
Proof.
  apply (main_returns_broke 2 (rng_of_list [0; 1; 5]%nat) ["100"; "no"]).
  vm_compute. reflexivity.
Defined.

Lemma run_throws (fuel : nat) (g0 g g' : AceyDucey) (e : exception) :
  loop_reaches g0 g ->
  run fuel g = Some (Throws e g') ->
  exists h,
    loop_reaches g0 h /\ state h <> GameOver /\ run_body h = Throws e g'.
Proof.
  revert g. induction fuel as [|fuel IH]; intros g Hreach; cbn [run];
    destruct (State_eqb (state g) GameOver) eqn:S; intros E;
    try discriminate E.
  assert (N : state g <> GameOver).
  { intros C. apply State_eqb_eq in C. congruence. }
  destruct (run_body g) as [[] g1 | e1 g1] eqn:B.
  - apply (IH g1); [|exact E].
    exact (reaches_pass g0 g g1 Hreach N B).
  - injection E as <- <-. exists g. auto.
Qed.

(** X18 ([main], when it fails).  The only exception that ends the
    program is [out_of_range], thrown in a round of the game at the bet
    prompt, on an answer that is a run of digits writing more than
    [INT_MAX]; the prompt is the last thing written. *)
Theorem main_throws
    (fuel : nat) (r : Rng) (input : list string) (g' : AceyDucey)
    (e : exception) :
  main fuel r input = Some (Throws e g') ->
  e = out_of_range /\
  exists h,
    round_start h /\ g' = asked h /\
    all_digits (bet_line h) = true /\
    INT_MAX < digits_value 0 (bet_line h) /\
    exists out, cout g' = (out ++ ["WHAT IS YOUR BET "])%list.
Proof.
  unfold main. intros E.
  destruct (run_throws fuel _ _ _ _ (reaches_start _) E) as (h & H & N & B).
  destruct (state h) eqn:S; [| | |congruence].
  - rewrite (run_body_initialising _ S) in B. discriminate B.
  - rewrite run_body_round in B by auto.
    destruct (play_turn h) as [[] g1 | e1 g1] eqn:P; [discriminate B|].
    injection B as -> ->.
    destruct (play_turn_throw_inv _ _ _ P) as (-> & -> & D & U).
    split; [reflexivity|]. exists h.
    repeat split; eauto.
    unfold asked, opening. cbn [cout]. eexists.
    rewrite !app_assoc. reflexivity.
  - rewrite run_body_round in B by auto.
    destruct (play_turn h) as [[] g1 | e1 g1] eqn:P; [discriminate B|].
    injection B as -> ->.
    destruct (play_turn_throw_inv _ _ _ P) as (-> & -> & D & U).
    split; [reflexivity|]. exists h.
    repeat split; eauto.
    unfold asked, opening. cbn [cout]. eexists.
    rewrite !app_assoc. reflexivity.
Qed.

Lemma main_throws_witness :
  out_of_range = out_of_range /\
  exists h,
    round_start h /\
    asked (object_of (run_body (new_game (rng_of_list [0; 1]%nat)
                                  ["99999999999"]))) = asked h /\
    all_digits (bet_line h) = true /\
    INT_MAX < digits_value 0 (bet_line h) /\
    exists out,
      cout (asked (object_of (run_body (new_game (rng_of_list [0; 1]%nat)
                                          ["99999999999"])))) =
      (out ++ ["WHAT IS YOUR BET "])%list.
Proof.
  apply (main_throws 2 (rng_of_list [0; 1]%nat) ["99999999999"]).
  vm_compute. reflexivity.
Defined.

Lemma take_bet_bet_nothing (a b : string) (bet : Z) (g g' : AceyDucey) :
  take_bet a b bet g = Returns tt g' ->
  (state g' = BetNothing <-> bet <= 0).
Proof.
  unfold take_bet, broke. exec.
  destruct (Z.leb_spec bet 0) as [L|L]; exec.
  - intros [= <-]. exec. tauto.
  - repeat branch; exec; intros [= <-]; exec;
      (split; [discriminate | lia]).
Qed.

(** X19 ([play_turn], the state [BetNothing]).  A round ends in the
    state [BetNothing] exactly when the number the parser made of the
    answer is 0 or below; every other round that returns ends in
    [Playing]. *)
Theorem play_turn_bet_nothing (g g' : AceyDucey) :
  play_turn g = Returns tt g' ->
  exists bet,
    get_positive_integer (bet_line g) = Value bet /\
    (bet <= 0 -> state g' = BetNothing) /\
    (0 < bet -> state g' = Playing).
Proof.
  rewrite play_turn_prologue. unfold bind, call.
  destruct (get_positive_integer (bet_line g)) as [bet|]; [|discriminate].
  intros E. exists bet. split; [reflexivity|].
  pose proof (take_bet_bet_nothing _ _ _ _ _ E) as [B1 B2].
  pose proof (take_bet_state _ _ _ _ _ E) as [S|S].
  - split; [intros L; specialize (B2 L); congruence | auto].
  - split; [auto | intros L; specialize (B1 S); lia].
Qed.

Lemma play_turn_bet_nothing_witness :
  exists bet,
    get_positive_integer
      (bet_line (mkAceyDucey 100 Playing CARDS (rng_of_list [3; 9]%nat)
                   ["0"] [] [])) = Value bet /\
    (bet <= 0 ->
     state (object_of (play_turn
              (mkAceyDucey 100 Playing CARDS (rng_of_list [3; 9]%nat)
                 ["0"] [] []))) = BetNothing) /\
    (0 < bet ->
     state (object_of (play_turn
              (mkAceyDucey 100 Playing CARDS (rng_of_list [3; 9]%nat)
                 ["0"] [] []))) = Playing).
Proof.
  apply (play_turn_bet_nothing
           (mkAceyDucey 100 Playing CARDS (rng_of_list [3; 9]%nat)
              ["0"] [] [])).
  vm_compute. reflexivity.
Defined.
